(** * ponzu: project bootstrap and build pipeline ([cmd/ponzu/options.go])

    A shallow embedding of [newProjectInDir], [createProjInDir],
    [vendorCorePackages] and [buildPonzuServer], over a model of the parts of
    the Go standard library they call ([path/filepath], [os], [io],
    [io/ioutil], [os/exec], [fmt]), and the properties of the pipeline
    proved on it. *)

From Stdlib Require Import String Ascii.
From stdpp Require Import gmap strings list fin_maps.

Set Warnings "-register-all".
Open Scope string_scope.
Open Scope list_scope.

(** ** Paths as Go strings: [path/filepath] *)

Module Filepath.

Definition is_slash (c : ascii) : bool := Ascii.eqb c "/".

(** The elements of a path between separators; ["a//b"] has an empty
    element, as in [strings.Split]. *)
Fixpoint split (s : string) : list string :=
  match s with
  | EmptyString => [""]
  | String c s' =>
      if is_slash c then "" :: split s'
      else match split s' with
           | h :: t => String c h :: t
           | [] => [String c ""]
           end
  end.

Definition rooted (s : string) : bool :=
  match s with
  | String c _ => is_slash c
  | EmptyString => false
  end.

Fixpoint slash_free (s : string) : bool :=
  match s with
  | EmptyString => true
  | String c s' => negb (is_slash c) && slash_free s'
  end.

(** One element of the lexical walk of [filepath.Clean]: empty and [.]
    elements vanish, [..] removes the element before it, a [..] at the root
    of a rooted path vanishes, and a [..] at the start of a relative path is
    kept.  The stack holds the elements seen so far, last first. *)
Definition step (r : bool) (stack : list string) (c : string) : list string :=
  if (c =? "") || (c =? ".") then stack
  else if c =? ".." then
    match stack with
    | top :: rest => if top =? ".." then c :: stack else rest
    | [] => if r then [] else [c]
    end
  else c :: stack.

Definition normalize (r : bool) (l : list string) : list string :=
  rev (fold_left (step r) l []).

Definition render (r : bool) (l : list string) : string :=
  if r then "/" +:+ String.concat "/" l
  else match l with
       | [] => "."
       | _ => String.concat "/" l
       end.

(** [filepath.Clean] *)
Definition Clean (s : string) : string :=
  render (rooted s) (normalize (rooted s) (split s)).

(** [filepath.Join]: joins from the first non-empty element on, and cleans
    the result; [""] when every element is empty. *)
Fixpoint Join (elem : list string) : string :=
  match elem with
  | [] => ""
  | e :: rest => if e =? "" then Join rest else Clean (String.concat "/" elem)
  end.

(** The directory entries the kernel walks for a path: from the root for a
    rooted path, from the working directory [cwd] otherwise.  The tree below
    has no symbolic links, so [..] is the entry above. *)
Definition resolve (cwd : string) (s : string) : list string :=
  normalize true (if rooted s then split s else split cwd ++ split s).

(** A directory entry name: not empty, not [.] or [..], no separator. *)
Definition plain (c : string) : bool :=
  negb (c =? "") && negb (c =? ".") && negb (c =? "..") && slash_free c.

(** The elements the walk of a relative path leaves: names, and [..] *)
Definition kept (c : string) : Prop := c = ".." ∨ plain c = true.

End Filepath.

(** ** Go errors *)

Inductive errno :=
  ENOENT | ENOTDIR | EEXIST | EISDIR | ENOTEMPTY | EINVAL | EACCES | EIO.

Definition errno_text (no : errno) : string :=
  match no with
  | ENOENT => "no such file or directory"
  | ENOTDIR => "not a directory"
  | EEXIST => "file exists"
  | EISDIR => "is a directory"
  | ENOTEMPTY => "directory not empty"
  | EINVAL => "invalid argument"
  | EACCES => "permission denied"
  | EIO => "input/output error"
  end.

(** The error values the program meets: [*os.PathError], [*os.LinkError],
    and errors that are only a text ([errors.New], [fmt.Errorf], the errors
    of [os/exec] and of [fmt.Scanf]). *)
Inductive error :=
  | PathError (op path : string) (no : errno)
  | LinkError (op old new : string) (no : errno)
  | ErrorString (s : string).

(** [err.Error()] *)
Definition Error (e : error) : string :=
  match e with
  | PathError op path no => op +:+ " " +:+ path +:+ ": " +:+ errno_text no
  | LinkError op old new no =>
      op +:+ " " +:+ old +:+ " " +:+ new +:+ ": " +:+ errno_text no
  | ErrorString s => s
  end.

(** [os.IsNotExist] *)
Definition IsNotExist (e : error) : bool :=
  match e with
  | PathError _ _ ENOENT | LinkError _ _ _ ENOENT => true
  | _ => false
  end.

Definition errors_New (s : string) : error := ErrorString s.

Definition nl : string := String "010"%char "".
Definition cr : string := String "013"%char "".

(** ** [strings] *)

Definition lower (c : ascii) : ascii :=
  let n := nat_of_ascii c in
  if (65 <=? n)%nat && (n <=? 90)%nat then ascii_of_nat (n + 32) else c.

(** [strings.ToLower] on the ASCII letters.  Go also maps the upper-case
    letters outside ASCII; the only ASCII letters it maps one of them to are
    [k] and [i], so whether an answer is one of the tokens of the switch of
    [newProjectInDir] is decided here as it is in Go. *)
Fixpoint ToLower (s : string) : string :=
  match s with
  | EmptyString => EmptyString
  | String c s' => String (lower c) (ToLower s')
  end.

(** [strings.Join] *)
Definition strings_Join (elems : list string) (sep : string) : string :=
  String.concat sep elems.

(** [sub] occurs in [s]. *)
Fixpoint contains (sub s : string) : bool :=
  String.prefix sub s ||
  match s with
  | EmptyString => false
  | String _ s' => contains sub s'
  end.

(** ** The file tree *)

Inductive node :=
  | File (data : string)
  | Dir (entries : gmap string node).

(** Walk the entries [p] down from [n], as the kernel resolves a path. *)
Fixpoint walk (p : list string) (n : node) : errno + node :=
  match p with
  | [] => inr n
  | c :: p' =>
      match n with
      | File _ => inl ENOTDIR
      | Dir m =>
          match m !! c with
          | Some x => walk p' x
          | None => inl ENOENT
          end
      end
  end.

(** Set ([Some]) or unlink ([None]) the entry at [p]; nothing changes when
    the directory holding it is missing. *)
Fixpoint put (p : list string) (v : option node) (n : node) : node :=
  match p with
  | [] => match v with Some x => x | None => Dir ∅ end
  | c :: p' =>
      match n with
      | File _ => n
      | Dir m =>
          match p' with
          | [] => Dir (partial_alter (λ _, v) c m)
          | _ => Dir (alter (put p' v) c m)
          end
      end
  end.

Fixpoint mkdirAll (p : list string) (n : node) : errno + node :=
  match p with
  | [] => match n with Dir _ => inr n | File _ => inl ENOTDIR end
  | c :: p' =>
      match n with
      | File _ => inl ENOTDIR
      | Dir m =>
          match mkdirAll p' (default (Dir ∅) (m !! c)) with
          | inr x => inr (Dir (<[c:=x]> m))
          | inl no => inl no
          end
      end
  end.

Definition is_prefix (p q : list string) : bool :=
  bool_decide (take (length p) q = p).

(** The directory that holds the entry [p] must exist. *)
Definition parent_dir (p : list string) (n : node) : errno + gmap string node :=
  match walk (removelast p) n with
  | inr (Dir m) => inr m
  | inr (File _) => inl ENOTDIR
  | inl no => inl no
  end.

Definition fs_mkdir (p : list string) (n : node) : errno + node :=
  match walk p n with
  | inr _ => inl EEXIST
  | inl _ =>
      match parent_dir p n with
      | inr _ => inr (put p (Some (Dir ∅)) n)
      | inl no => inl no
      end
  end.

(** rename(2): the source must exist, the directory of the target too; a
    directory replaces only an empty directory, a file only a file; nothing
    moves into itself. *)
Definition fs_rename (old new : list string) (n : node) : errno + node :=
  match walk old n with
  | inl no => inl no
  | inr x =>
      match parent_dir new n with
      | inl no => inl no
      | inr _ =>
          if bool_decide (old = new) then inr n
          else if is_prefix old new then inl EINVAL
          else
            match x, walk new n with
            | Dir _, inr (File _) => inl ENOTDIR
            | File _, inr (Dir _) => inl EISDIR
            | Dir _, inr (Dir m) =>
                if bool_decide (m = ∅)
                then inr (put new (Some x) (put old None n))
                else inl ENOTEMPTY
            | _, _ => inr (put new (Some x) (put old None n))
            end
      end
  end.

(** [os.RemoveAll] is not an error on a path that does not exist. *)
Definition fs_removeAll (p : list string) (n : node) : errno + node :=
  match walk p n with
  | inr _ => inr (put p None n)
  | inl _ => inr n
  end.

Fixpoint insert_sorted (x : string) (l : list string) : list string :=
  match l with
  | [] => [x]
  | y :: l' => if String.leb x y then x :: l else y :: insert_sorted x l'
  end.

(** The names in a directory, sorted by name as [ioutil.ReadDir] returns
    them. *)
Definition names (m : gmap string node) : list string :=
  foldr insert_sorted [] (map_to_list m).*1.

Definition fs_readDir (p : list string) (n : node) : errno + list string :=
  match walk p n with
  | inr (Dir m) => inr (names m)
  | inr (File _) => inl ENOTDIR
  | inl no => inl no
  end.

(** open(2) with O_CREAT and O_TRUNC *)
Definition fs_create (p : list string) (n : node) : errno + node :=
  match walk p n with
  | inr (Dir _) => inl EISDIR
  | inr (File _) => inr (put p (Some (File "")) n)
  | inl _ =>
      match parent_dir p n with
      | inr _ => inr (put p (Some (File "")) n)
      | inl no => inl no
      end
  end.

Definition fs_read (p : list string) (n : node) : errno + string :=
  match walk p n with
  | inr (File data) => inr data
  | inr (Dir _) => inl EISDIR
  | inl _ => inl EIO
  end.

(** write(2) at offset 0 of a file just truncated *)
Definition fs_write (p : list string) (data : string) (n : node) : errno + node :=
  match walk p n with
  | inr (File _) => inr (put p (Some (File data)) n)
  | inr (Dir _) => inl EISDIR
  | inl _ => inl EIO
  end.

(** ** The world around the process *)

(** What the process shows: a line on standard output, a subprocess started.
    The output of the subprocesses themselves goes to the same streams and is
    not recorded. *)
Inductive event :=
  | Print (line : string)
  | Exec (args : list string).

Record World := mkWorld { fs : node; log : list event }.

Inductive syscall :=
  | SysGetwd
  | SysStat (name : string)
  | SysMkdir (name : string)
  | SysMkdirAll (name : string)
  | SysRename (old new : string)
  | SysRemoveAll (name : string)
  | SysReadDir (name : string)
  | SysCreate (name : string)
  | SysOpen (name : string)
  | SysRead (name : string)
  | SysWrite (name : string).

(** A subprocess cannot start, or runs to its end with an exit status
    ([None] is exit status 0) and leaves a file tree behind. *)
Inductive outcome :=
  | StartFail (e : error)
  | Exit (status : option error) (tree : node).

(** [fmt.Scanf] with one [%s] verb: the token read, or the error. *)
Inductive scan :=
  | Scanned (token : string)
  | ScanError (e : error).

(** What the program cannot decide: the environment variable, the working
    directory, the package variables [dev] and [fork] (set from the command
    line flags, outside options.go), the failures of system calls the tree
    does not explain (permissions, the device), what a subprocess does, and
    what the user types. *)
Record Env := mkEnv {
  GOPATH : string;
  cwd : string;
  dev : bool;
  fork : string;
  fault : syscall → option errno;
  run : list string → node → outcome;
  stdin : scan
}.

(** ** Results and the monad of the program *)

Inductive res (A : Type) :=
  | Ok (a : A)
  | Err (e : error).
Arguments Ok {A} a.
Arguments Err {A} e.

Definition M (A : Type) : Type := World → res A * World.

Definition ret {A} (a : A) : M A := λ w, (Ok a, w).

(** [return err] *)
Definition throw {A} (e : error) : M A := λ w, (Err e, w).

Definition bind {A B} (c : M A) (k : A → M B) : M B :=
  λ w, match c w with
       | (Ok a, w') => k a w'
       | (Err e, w') => (Err e, w')
       end.

(** A call whose error the caller inspects instead of returning it. *)
Definition attempt {A} (c : M A) : M (res A) :=
  λ w, let '(r, w') := c w in (Ok r, w').

Declare Scope go_scope.
Delimit Scope go_scope with go.
Notation "x <- c ;; k" := (bind c (λ x, k))
  (at level 100, c at next level, right associativity) : go_scope.
Notation "c ;; k" := (bind c (λ _, k))
  (at level 100, right associativity) : go_scope.
Open Scope go_scope.

Fixpoint forM_ {A} (l : list A) (body : A → M unit) : M unit :=
  match l with
  | [] => ret tt
  | x :: l' => body x ;; forM_ l' body
  end.

(** [fmt.Println]: the operands separated by spaces. *)
Definition Println (operands : list string) : M unit :=
  λ w, (Ok tt, mkWorld (fs w) (log w ++ [Print (String.concat " " operands)])).

(** An open file: the name it was opened under and the entry it is. *)
Record file := mkFile { f_name : string; f_entry : list string }.

(** A started subprocess. *)
Record process := mkProcess { p_status : option error; p_tree : node }.

(** ** The calls into the standard library *)

Section Program.

Context (env : Env).

(** A system call that reads the tree, and one that changes it: each fails
    with the errno of [fault] or with the errno the tree gives. *)
Definition query {A} (c : syscall) (mkerr : errno → error)
    (f : node → errno + A) : M A :=
  λ w, match fault env c with
       | Some no => (Err (mkerr no), w)
       | None =>
           match f (fs w) with
           | inr a => (Ok a, w)
           | inl no => (Err (mkerr no), w)
           end
       end.

Definition update (c : syscall) (mkerr : errno → error)
    (f : node → errno + node) : M unit :=
  λ w, match fault env c with
       | Some no => (Err (mkerr no), w)
       | None =>
           match f (fs w) with
           | inr t => (Ok tt, mkWorld t (log w))
           | inl no => (Err (mkerr no), w)
           end
       end.

Definition entry (name : string) : list string :=
  Filepath.resolve (cwd env) name.

Definition os_Getenv (key : string) : string :=
  if key =? "GOPATH" then GOPATH env else "".

Definition os_Getwd : M string :=
  query SysGetwd (λ no, ErrorString ("getwd: " +:+ errno_text no))
    (λ _, inr (cwd env)).

Definition os_Stat (name : string) : M node :=
  query (SysStat name) (PathError "stat" name) (walk (entry name)).

Definition os_MkdirAll (name : string) : M unit :=
  update (SysMkdirAll name) (PathError "mkdir" name) (mkdirAll (entry name)).

Definition os_Mkdir (name : string) : M unit :=
  update (SysMkdir name) (PathError "mkdir" name) (fs_mkdir (entry name)).

Definition os_Rename (old new : string) : M unit :=
  update (SysRename old new) (LinkError "rename" old new)
    (fs_rename (entry old) (entry new)).

Definition os_RemoveAll (name : string) : M unit :=
  update (SysRemoveAll name) (PathError "unlinkat" name)
    (fs_removeAll (entry name)).

Definition ioutil_ReadDir (name : string) : M (list string) :=
  query (SysReadDir name) (PathError "open" name) (fs_readDir (entry name)).

Definition os_Create (name : string) : M file :=
  update (SysCreate name) (PathError "open" name) (fs_create (entry name)) ;;
  ret (mkFile name (entry name)).

Definition os_Open (name : string) : M file :=
  query (SysOpen name) (PathError "open" name)
    (λ t, match walk (entry name) t with
          | inr _ => inr (mkFile name (entry name))
          | inl no => inl no
          end).

(** [io.Copy]: everything read from [src] is written to [dst]. *)
Definition io_Copy (dst src : file) : M unit :=
  data <- query (SysRead (f_name src)) (PathError "read" (f_name src))
            (fs_read (f_entry src)) ;;
  update (SysWrite (f_name dst)) (PathError "write" (f_name dst))
    (fs_write (f_entry dst) data).

Definition exec_Command (name : string) (arg : list string) : list string :=
  name :: arg.

(** [cmd.Start]: what the subprocess will do is decided by the tree it
    starts on. *)
Definition cmd_Start (cmd : list string) : M process :=
  λ w, let w' := mkWorld (fs w) (log w ++ [Exec cmd]) in
       match run env cmd (fs w) with
       | StartFail e => (Err e, w')
       | Exit status tree => (Ok (mkProcess status tree), w')
       end.

(** [cmd.Wait]: the subprocess has ended and its files are there. *)
Definition cmd_Wait (p : process) : M unit :=
  λ w, let w' := mkWorld (p_tree p) (log w) in
       match p_status p with
       | Some e => (Err e, w')
       | None => (Ok tt, w')
       end.

Definition fmt_Scanf : M string :=
  λ w, match stdin env with
       | Scanned token => (Ok token, w)
       | ScanError e => (Err e, w)
       end.

(** ** The program *)

Definition ponzuRepo : list string := ["github.com"; "bosssauce"; "ponzu"].

Definition vendorCorePackages (path : string) : M unit :=
  let vendorPath :=
    Filepath.Join
      [path; "cmd"; "ponzu"; "vendor"; "github.com"; "bosssauce"; "ponzu"] in
  os_MkdirAll vendorPath ;;
  let dirs := ["content"; "management"; "system"] in
  forM_ dirs (λ dir,
    os_Rename (Filepath.Join [path; dir]) (Filepath.Join [vendorPath; dir])) ;;
  (* create a user 'content' package *)
  let contentPath := Filepath.Join [path; "content"] in
  os_Mkdir contentPath ;;
  ret tt.

Definition createProjInDir (path : string) : M unit :=
  let gopath := os_Getenv "GOPATH" in
  let repo := ponzuRepo in
  let local := Filepath.Join [gopath; "src"; Filepath.Join repo] in
  let network := "https://" +:+ strings_Join repo "/" +:+ ".git" in
  (* create the directory or overwrite it *)
  os_MkdirAll path ;;
  if dev env then
    let local :=
      if negb (fork env =? "") then Filepath.Join [gopath; "src"; fork env]
      else local in
    let devClone :=
      exec_Command "git"
        ["clone"; local; "--branch"; "ponzu-dev"; "--single-branch"; path] in
    p <- cmd_Start devClone ;;
    cmd_Wait p ;;
    vendorCorePackages path ;;
    Println ["Dev build cloned from " +:+ local +:+ ":ponzu-dev"] ;;
    ret tt
  else
    (* try to git clone the repository from the local machine's $GOPATH *)
    let localClone := exec_Command "git" ["clone"; local; path] in
    p <- cmd_Start localClone ;;
    r <- attempt (cmd_Wait p) ;;
    match r with
    | Err _ =>
        Println ["Couldn't clone from"; local; ". Trying network..."] ;;
        (* try to git clone the repository over the network *)
        let networkClone := exec_Command "git" ["clone"; network; path] in
        r <- attempt (cmd_Start networkClone) ;;
        match r with
        | Err err =>
            Println ["Network clone failed to start. Try again and make sure you have a network connection."] ;;
            throw err
        | Ok p =>
            r <- attempt (cmd_Wait p) ;;
            match r with
            | Err err =>
                Println ["Network clone failure."] ;;
                throw (ErrorString
                  ("Failed to clone files from local machine [" +:+ local
                   +:+ "] and over the network [" +:+ network +:+ "]."
                   +:+ nl +:+ Error err))
            | Ok _ => ret tt
            end
        end
    | Ok _ => ret tt
    end ;;
    (* create a 'vendor' directory in $path/cmd/ponzu and move 'content',
       'management' and 'system' packages into it *)
    vendorCorePackages path ;;
    let gitDir := Filepath.Join [path; ".git"] in
    r <- attempt (os_RemoveAll gitDir) ;;
    match r with
    | Err _ =>
        Println ["Failed to remove .git directory from your project path. Consider removing it manually."]
    | Ok _ => ret tt
    end ;;
    Println ["New ponzu project created at"; path] ;;
    ret tt.

Definition newProjectInDir (path : string) : M unit :=
  (* set path to be nested inside $GOPATH/src *)
  let gopath := os_Getenv "GOPATH" in
  let path := Filepath.Join [gopath; "src"; path] in
  (* check if anything exists at the path, ask if it should be overwritten *)
  st <- attempt (os_Stat path) ;;
  if negb (match st with Err err => IsNotExist err | Ok _ => false end) then
    Println ["Path exists, overwrite contents? (y/N):"] ;;
    sc <- attempt fmt_Scanf ;;
    answer <- match sc with
              | Err err =>
                  if Error err =? "unexpected newline" then ret ""
                  else throw err
              | Ok token => ret token
              end ;;
    let answer := ToLower answer in
    if existsb (String.eqb answer) ["n"; "no"; cr +:+ nl; nl; ""] then
      Println [""] ;;
      ret tt
    else if existsb (String.eqb answer) ["y"; "yes"] then
      r <- attempt (os_RemoveAll path) ;;
      match r with
      | Err err =>
          throw (ErrorString
            ("Failed to overwrite " +:+ path +:+ ". " +:+ nl +:+ Error err))
      | Ok _ => createProjInDir path
      end
    else
      Println ["Input not recognized. No files overwritten. Answer as 'y' or 'n' only."] ;;
      ret tt
  else createProjInDir path.

Definition conflictFiles : list string := ["item.go"; "types.go"].

(** The inner loop of the copy pass, over [conflictFiles]: its [continue]
    ends one round of this loop, and the loop goes on to the next protected
    name. *)
Definition checkConflicts (name : string) (mustRenameFiles : list string)
    : list string :=
  fold_left
    (λ mustRenameFiles conflict,
       if name =? conflict then mustRenameFiles ++ [conflict]
       else mustRenameFiles)
    conflictFiles mustRenameFiles.

(** The loop over [srcFiles] (the names that [ReadDir] returned). *)
Fixpoint copyLoop (contentSrcPath contentDstPath : string)
    (srcFiles : list string) (mustRenameFiles : list string)
    : M (list string) :=
  match srcFiles with
  | [] => ret mustRenameFiles
  | name :: srcFiles' =>
      (* check srcFile exists in contentDstPath *)
      let mustRenameFiles := checkConflicts name mustRenameFiles in
      dstFile <- os_Create (Filepath.Join [contentDstPath; name]) ;;
      srcFile <- os_Open (Filepath.Join [contentSrcPath; name]) ;;
      io_Copy dstFile srcFile ;;
      copyLoop contentSrcPath contentDstPath srcFiles' mustRenameFiles
  end.

Definition conflictError : error :=
  errors_New
    "Ponzu has very few internal conflicts, sorry for the inconvenience.".

(** [buildPonzuServer] up to the report of the conflicts: the copy of
    ./content into the vendored content directory. *)
Definition reconcile (pwd : string) : M unit :=
  let contentSrcPath := Filepath.Join [pwd; "content"] in
  let contentDstPath :=
    Filepath.Join
      [pwd; "cmd"; "ponzu"; "vendor"; "github.com"; "bosssauce"; "ponzu";
       "content"] in
  srcFiles <- ioutil_ReadDir contentSrcPath ;;
  mustRenameFiles <- copyLoop contentSrcPath contentDstPath srcFiles [] ;;
  if (1 <? length mustRenameFiles)%nat then
    Println ["Ponzu couldn't fully build your project:"] ;;
    Println ["Some of your files in the content directory exist in the vendored directory."] ;;
    Println ["You must rename the following files, as they conflict with Ponzu core:"] ;;
    forM_ mustRenameFiles (λ file, Println [file]) ;;
    Println ["Once the files above have been renamed, run '$ ponzu build' to retry."] ;;
    throw conflictError
  else ret tt.

Definition buildFailed (err : error) : error :=
  errors_New
    ("Ponzu build step failed. Please try again. " +:+ nl +:+ Error err).

(** The rest of [buildPonzuServer]: go build -o ponzu-server. *)
Definition compile (pwd : string) : M unit :=
  let mainPath := Filepath.Join [pwd; "cmd"; "ponzu"; "main.go"] in
  let optsPath := Filepath.Join [pwd; "cmd"; "ponzu"; "options.go"] in
  let build :=
    exec_Command "go" ["build"; "-o"; "ponzu-server"; mainPath; optsPath] in
  r <- attempt (cmd_Start build) ;;
  match r with
  | Err err => throw (buildFailed err)
  | Ok p =>
      r <- attempt (cmd_Wait p) ;;
      match r with
      | Err err => throw (buildFailed err)
      | Ok _ => ret tt
      end
  end.

Definition buildPonzuServer (args : list string) : M unit :=
  pwd <- os_Getwd ;;
  reconcile pwd ;;
  compile pwd.

(** ** Names for the statements below *)

(** What the tree holds under a Go path. *)
Definition at_path (name : string) (t : node) : errno + node :=
  walk (entry name) t.

(** The vendor directory of the project at [path], as
    [vendorCorePackages] computes it. *)
Definition vendorPath (path : string) : string :=
  Filepath.Join
    [path; "cmd"; "ponzu"; "vendor"; "github.com"; "bosssauce"; "ponzu"].

(** The two directories of [buildPonzuServer]: [contentSrcPath] and
    [contentDstPath] for the working directory [pwd]. *)
Definition userContentDir (pwd : string) : string :=
  Filepath.Join [pwd; "content"].

Definition vendoredContentDir (pwd : string) : string :=
  Filepath.Join
    [pwd; "cmd"; "ponzu"; "vendor"; "github.com"; "bosssauce"; "ponzu";
     "content"].

(** The entries of the two directories in the tree. *)
Definition userContentEntry (pwd : string) : list string :=
  entry pwd ++ ["content"].

Definition vendoredContentEntry (pwd : string) : list string :=
  entry pwd ++ "cmd" ::
    ["ponzu"; "vendor"; "github.com"; "bosssauce"; "ponzu"; "content"].

(** The names [ReadDir] finds in the user content directory. *)
Definition userFiles (pwd : string) (t : node) : list string :=
  match at_path (userContentDir pwd) t with
  | inr (Dir m) => names m
  | _ => []
  end.

(** The body of the loop of [copyLoop] without the conflict check. *)
Definition copyRound (pwd : string) (name : string) : M unit :=
  dstFile <- os_Create (Filepath.Join [vendoredContentDir pwd; name]) ;;
  srcFile <- os_Open (Filepath.Join [userContentDir pwd; name]) ;;
  io_Copy dstFile srcFile.

(** The system calls of one round of the copy loop do not fail for a reason
    outside the tree. *)
Definition sound (pwd : string) (name : string) : Prop :=
  fault env (SysCreate (Filepath.Join [vendoredContentDir pwd; name])) = None ∧
  fault env (SysOpen (Filepath.Join [userContentDir pwd; name])) = None ∧
  fault env (SysRead (Filepath.Join [userContentDir pwd; name])) = None ∧
  fault env (SysWrite (Filepath.Join [vendoredContentDir pwd; name])) = None.

(** The user file [name] of the tree [t] is a regular file, and the
    vendored content directory of [t'] holds a file of this name with the
    same contents. *)
Definition copied (pwd : string) (name : string) (t t' : node) : Prop :=
  ∃ data,
    at_path (Filepath.Join [userContentDir pwd; name]) t = inr (File data) ∧
    at_path (Filepath.Join [vendoredContentDir pwd; name]) t'
    = inr (File data).

(** [copied] on the entries. *)
Definition copied_at (pwd : string) (name : string) (t t' : node) : Prop :=
  ∃ data,
    walk (userContentEntry pwd ++ [name]) t = inr (File data) ∧
    walk (vendoredContentEntry pwd ++ [name]) t' = inr (File data).

(** The locations and the commands of [createProjInDir]. *)
Definition localRepo : string :=
  Filepath.Join [os_Getenv "GOPATH"; "src"; Filepath.Join ponzuRepo].

Definition forkRepo : string :=
  Filepath.Join [os_Getenv "GOPATH"; "src"; fork env].

Definition networkRepo : string :=
  "https://" +:+ strings_Join ponzuRepo "/" +:+ ".git".

Definition localClone (path : string) : list string :=
  ["git"; "clone"; localRepo; path].

Definition networkClone (path : string) : list string :=
  ["git"; "clone"; networkRepo; path].

Definition devClone (path : string) : list string :=
  ["git"; "clone"; if fork env =? "" then localRepo else forkRepo;
   "--branch"; "ponzu-dev"; "--single-branch"; path].

Definition buildCommand (pwd : string) : list string :=
  ["go"; "build"; "-o"; "ponzu-server";
   Filepath.Join [pwd; "cmd"; "ponzu"; "main.go"];
   Filepath.Join [pwd; "cmd"; "ponzu"; "options.go"]].

Definition transitionNotice : string :=
  "Couldn't clone from " +:+ localRepo +:+ " . Trying network...".

Definition networkStartNotice : string :=
  "Network clone failed to start. Try again and make sure you have a network connection.".

(** The error of [createProjInDir] when the clone over the network has
    ended badly after the local one. *)
Definition cloneFailed (err : error) : error :=
  ErrorString
    ("Failed to clone files from local machine [" +:+ localRepo
     +:+ "] and over the network [" +:+ networkRepo +:+ "]."
     +:+ nl +:+ Error err).

(** What [createProjInDir] does once a clone without [dev] has ended well:
    the vendoring, the removal of .git and the last line. *)
Definition finishProject (path : string) : M unit :=
  vendorCorePackages path ;;
  let gitDir := Filepath.Join [path; ".git"] in
  r <- attempt (os_RemoveAll gitDir) ;;
  match r with
  | Err _ =>
      Println ["Failed to remove .git directory from your project path. Consider removing it manually."]
  | Ok _ => ret tt
  end ;;
  Println ["New ponzu project created at"; path] ;;
  ret tt.

End Program.

(** The protected names met in [srcFiles], as the copy loop gathers them. *)
Definition conflicts (srcFiles mustRenameFiles : list string) : list string :=
  fold_left (λ acc name, checkConflicts name acc) srcFiles mustRenameFiles.

Definition protected (name : string) : bool :=
  existsb (String.eqb name) conflictFiles.

(** The subprocesses started, in order. *)
Definition execs (l : list event) : list (list string) :=
  omap (λ e, match e with Exec args => Some args | Print _ => None end) l.

(** The answers of the switch of [newProjectInDir]. *)
Definition negative (answer : string) : bool :=
  existsb (String.eqb (ToLower answer)) ["n"; "no"; cr +:+ nl; nl; ""].

Definition affirmative (answer : string) : bool :=
  existsb (String.eqb (ToLower answer)) ["y"; "yes"].

(** The answer [newProjectInDir] goes on with after [fmt.Scanf]: the token,
    the empty answer for a bare newline, or the error of the scan. *)
Definition answered (sc : scan) : res string :=
  match sc with
  | Scanned token => Ok token
  | ScanError err =>
      if Error err =? "unexpected newline" then Ok "" else Err err
  end.

Definition overwritePrompt : string := "Path exists, overwrite contents? (y/N):".

Definition notRecognized : string :=
  "Input not recognized. No files overwritten. Answer as 'y' or 'n' only.".

(** A computation that starts no subprocess: it only adds lines to the
    log. *)
Definition starts_nothing {A} (c : M A) : Prop :=
  ∀ w r w', c w = (r, w') → ∃ rest, log w' = log w ++ rest ∧ execs rest = [].

(** The lines that report the conflicts. *)
Definition conflictReport (mustRenameFiles : list string) : list event :=
  [Print "Ponzu couldn't fully build your project:";
   Print "Some of your files in the content directory exist in the vendored directory.";
   Print "You must rename the following files, as they conflict with Ponzu core:"]
  ++ map Print mustRenameFiles
  ++ [Print "Once the files above have been renamed, run '$ ponzu build' to retry."].

(** ** Names for the further properties *)

(** The entry [q] leaves the way to the entry [e] by another name. *)
Definition diverges (q e : list string) : Prop :=
  ∃ p a b r1 r2, a ≠ b ∧ q = p ++ a :: r1 ∧ e = p ++ b :: r2.

(** A computation that leaves what the tree holds at the entry [q]. *)
Definition keeps {A} (q : list string) (c : M A) : Prop :=
  ∀ w r w', c w = (r, w') → walk q (fs w') = walk q (fs w).

(** The packages [vendorCorePackages] moves. *)
Definition corePackages : list string := ["content"; "management"; "system"].

(** The .git directory of the project at [path], and the lines of
    [createProjInDir]. *)
Definition gitDir (path : string) : string := Filepath.Join [path; ".git"].

Definition gitNotice : string :=
  "Failed to remove .git directory from your project path. Consider removing it manually.".

Definition createdNotice (path : string) : string :=
  "New ponzu project created at " +:+ path.

Definition devNotice (env : Env) : string :=
  "Dev build cloned from "
  +:+ (if fork env =? "" then localRepo env else forkRepo env)
  +:+ ":ponzu-dev".

(** The subprocesses a run of [createProjInDir] may start, in order. *)
Definition cloneAttempts (env : Env) (path : string)
    (started : list (list string)) : Prop :=
  if dev env then started = [] ∨ started = [devClone env path]
  else started = [] ∨ started = [localClone env path] ∨
       started = [localClone env path; networkClone path].

(** ** Scenarios *)

Module Scenario.

(** The directory [p] holding only [x]. *)
Fixpoint below (p : list string) (x : node) : node :=
  match p with
  | [] => x
  | c :: p' => Dir {[ c := below p' x ]}
  end.

(** A directory of regular files. *)
Definition files (l : list (string * string)) : node :=
  Dir (list_to_map (prod_map id File <$> l)).

(** A project in /proj with a user content directory and a vendored content
    directory. *)
Definition project (user vendored : node) : World :=
  mkWorld
    (below ["proj"]
       (Dir (<["content" := user]>
          {[ "cmd" :=
               below ["ponzu"; "vendor"; "github.com"; "bosssauce"; "ponzu";
                      "content"] vendored ]})))
    [].

(** Run from /proj, GOPATH=/go, every system call as the tree says. *)
Definition shell (dev : bool) (fork : string)
    (run : list string → node → outcome) (stdin : scan) : Env :=
  mkEnv "/go" "/proj" dev fork (λ _, None) run stdin.

(** A toolchain that builds and leaves the tree as it is. *)
Definition builds : list string → node → outcome := λ _ t, Exit None t.

(** A toolchain that is not installed. *)
Definition no_toolchain : list string → node → outcome :=
  λ _ _, StartFail (ErrorString "exec: go: executable file not found in $PATH").

Definition building : Env := shell false "" builds (Scanned "").

Definition not_building : Env := shell false "" no_toolchain (Scanned "").

(** The user holds the protected item.go, nothing is vendored yet. *)
Definition protected_only : World :=
  project (files [("item.go", "package content")]) (files []).

(** The user holds foo.txt and the protected item.go. *)
Definition one_conflict : World :=
  project (files [("foo.txt", "hello"); ("item.go", "package content")])
    (files []).

(** The user holds both protected names, with the contents the vendored
    directory holds already. *)
Definition same_again : World :=
  project (files [("item.go", "package content"); ("types.go", "package content")])
    (files [("item.go", "package content"); ("types.go", "package content")]).

(** The user holds both protected names, and the vendored item.go is
    another one. *)
Definition two_conflicts : World :=
  project (files [("item.go", "package mine"); ("types.go", "package mine")])
    (files [("item.go", "package content")]).

(** The user holds foo.txt only. *)
Definition no_conflict : World :=
  project (files [("foo.txt", "hello")]) (files []).

(** The tree of the ponzu repository. *)
Definition template : node :=
  Dir (<[".git" := files [("HEAD", "ref: refs/heads/master")]]>
      (<["cmd" := below ["ponzu"] (files [("main.go", "package main")])]>
      (<["content" := files [("item.go", "package content")]]>
      (<["management" := files [("manager.go", "package manager")]]>
       {[ "system" := files [("auth.go", "package system")] ]})))).

(** A fresh clone in /proj. *)
Definition cloned : World := mkWorld (below ["proj"] template) [].

(** An empty GOPATH. *)
Definition empty_gopath : World := mkWorld (below ["go"; "src"] (Dir ∅)) [].

Definition exit128 : error := ErrorString "exit status 128".

Definition no_fork : error :=
  ErrorString "fork/exec /usr/bin/git: resource temporarily unavailable".

(** git: the clone of a source puts the template at the destination; the
    other clones end with status 128. *)
Definition git (good : string) (args : list string) (t : node) : outcome :=
  match args with
  | ["git"; "clone"; source; destination] =>
      if source =? good
      then Exit None (put (Filepath.resolve "/proj" destination) (Some template) t)
      else Exit (Some exit128) t
  | _ => Exit (Some exit128) t
  end.

(** Only the repository on the network can be cloned. *)
Definition network_only : Env :=
  shell false "" (git "https://github.com/bosssauce/ponzu.git") (Scanned "").


(** The first git cannot be started; the repository on the network could be
    cloned. *)
Definition local_cannot_start : Env :=
  shell false ""
    (λ args t,
       match args with
       | ["git"; "clone"; "/go/src/github.com/bosssauce/ponzu"; _] =>
           StartFail no_fork
       | _ => git "https://github.com/bosssauce/ponzu.git" args t
       end)
    (Scanned "").


(** [dev] with a fork that cannot be cloned. *)
Definition dev_fork : Env :=
  shell true "github.com/me/ponzu" (git "") (Scanned "").

(** The user types [answer]; the local repository can be cloned. *)
Definition answering (answer : string) : Env :=
  shell false "" (git "/go/src/github.com/bosssauce/ponzu") (Scanned answer).

(** The user types nothing but the newline. *)
Definition bare_newline : Env :=
  shell false "" (git "/go/src/github.com/bosssauce/ponzu")
    (ScanError (ErrorString "unexpected newline")).

(** Something is at GOPATH/src/my already. *)
Definition occupied : World :=
  mkWorld (below ["go"; "src"; "my"] (files [("notes.txt", "keep me")])) [].

(** A clone that lacks the management package. *)
Definition incomplete : World :=
  mkWorld
    (below ["proj"]
       (Dir (<["cmd" := below ["ponzu"] (files [("main.go", "package main")])]>
            (<["content" := files [("item.go", "package content")]]>
             {[ "system" := files [("auth.go", "package system")] ]}))))
    [].


(** git for [dev]: the clone of the branch ponzu-dev puts the template at
    the destination. *)
Definition git_branch (args : list string) (t : node) : outcome :=
  match args with
  | ["git"; "clone"; _; "--branch"; "ponzu-dev"; "--single-branch";
     destination] =>
      Exit None (put (Filepath.resolve "/proj" destination) (Some template) t)
  | _ => Exit (Some exit128) t
  end.

Definition developing : Env := shell true "" git_branch (Scanned "").

(** The user content directory holds a file and a directory. *)
Definition with_subdirectory : World :=
  project
    (Dir (<["pages" := files [("home.go", "package pages")]]>
            {[ "post.go" := File "package content" ]}))
    (files []).

End Scenario.

(** * Properties *)

(** ** Paths *)

Module FilepathFacts.
Import Filepath.

Example Join_cleans :
  Join ["/home/u/go/"; "src"; "a/./b/../c"] = "/home/u/go/src/a/c".
Proof. reflexivity. Qed.

Example Join_skips_empty : Join [""; "src"; "x"] = "src/x".
Proof. reflexivity. Qed.

Example Clean_keeps_leading_dotdot : Clean "a/../../b//" = "../b".
Proof. reflexivity. Qed.

Example resolve_relative : resolve "/proj" "../go/src" = ["go"; "src"].
Proof. reflexivity. Qed.

Lemma split_nonempty s : split s ≠ [].
Proof.
  destruct s as [|c s]; simpl; [done|].
  destruct (is_slash c); [done|]. by destruct (split s).
Qed.

Lemma split_app_slash a b : split (a +:+ "/" +:+ b) = split a ++ split b.
Proof.
  induction a as [|c a IH]; simpl; [done|].
  destruct (is_slash c); [by rewrite IH|].
  rewrite IH. pose proof (split_nonempty a). by destruct (split a).
Qed.

Lemma split_slash_free c : slash_free c = true → split c = [c].
Proof.
  induction c as [|x c IH]; simpl; [done|].
  intros [Hx Hc]%andb_prop. rewrite negb_true_iff in Hx. by rewrite Hx, IH.
Qed.

Lemma split_concat p l :
  Forall (λ c, slash_free c = true) l →
  split (String.concat "/" (p :: l)) = split p ++ l.
Proof.
  revert p. induction l as [|c l IH]; intros p Hl.
  - simpl. by rewrite app_nil_r.
  - inversion_clear Hl as [|?? Hc Hl'].
    change (String.concat "/" (p :: c :: l))
      with (p +:+ "/" +:+ String.concat "/" (c :: l)).
    rewrite split_app_slash, IH by done. by rewrite (split_slash_free c).
Qed.

Lemma rooted_concat p l : p ≠ "" → rooted (String.concat "/" (p :: l)) = rooted p.
Proof. intros Hp. destruct p; [done|]. by destruct l. Qed.

Lemma plain_slash_free c : plain c = true → slash_free c = true.
Proof. unfold plain. by intros [_ ?]%andb_prop. Qed.

Lemma plain_step r st c : plain c = true → step r st c = c :: st.
Proof.
  unfold plain, step. rewrite !andb_true_iff, !negb_true_iff.
  by intros [[[-> ->] ->] _].
Qed.

Lemma plain_not_rooted c : plain c = true → rooted c = false.
Proof.
  unfold plain. rewrite !andb_true_iff.
  intros [_ H]. destruct c as [|x c]; [done|]. simpl in *.
  apply andb_prop in H as [H _]. by apply negb_true_iff.
Qed.

Lemma plain_nonempty c : plain c = true → c ≠ "".
Proof. by intros H ->. Qed.

Lemma fold_step_plain r l st :
  Forall (λ c, plain c = true) l → fold_left (step r) l st = rev l ++ st.
Proof.
  revert st. induction l as [|c l IH]; intros st Hl; [done|].
  inversion_clear Hl. simpl. rewrite plain_step, IH by done.
  by rewrite <- app_assoc.
Qed.

(** What the walk of a rooted path leaves are entry names. *)
Lemma fold_step_rooted_plain l st :
  Forall (λ c, slash_free c = true) l →
  Forall (λ c, plain c = true) st →
  Forall (λ c, plain c = true) (fold_left (step true) l st).
Proof.
  revert st. induction l as [|c l IH]; intros st Hl Hst; [done|].
  inversion_clear Hl as [|?? Hc Hl']. simpl. apply IH; [done|].
  unfold step.
  destruct (String.eqb_spec c ""); [done|].
  destruct (String.eqb_spec c "."); [done|]. simpl.
  destruct (String.eqb_spec c "..") as [->|].
  - destruct st as [|top rest]; [done|]. inversion_clear Hst.
    destruct (String.eqb_spec top "..") as [->|]; [done|done].
  - constructor; [|done]. unfold plain.
    rewrite !andb_true_iff, !negb_true_iff, !String.eqb_neq. done.
Qed.

Lemma split_all_slash_free s : Forall (λ c, slash_free c = true) (split s).
Proof.
  induction s as [|x s IH]; simpl; [by repeat constructor|].
  destruct (is_slash x) eqn:Hx; [by constructor|].
  destruct (split s) as [|h t]; [by repeat constructor; simpl; rewrite Hx|].
  inversion_clear IH. constructor; [|done]. simpl. by rewrite Hx.
Qed.

Lemma fold_step_kept r l st :
  Forall (λ c, slash_free c = true) l →
  Forall kept st →
  Forall kept (fold_left (step r) l st).
Proof.
  revert st. induction l as [|c l IH]; intros st Hl Hst; [done|].
  inversion_clear Hl as [|?? Hc Hl']. simpl. apply IH; [done|].
  unfold step.
  destruct (String.eqb_spec c ""); [done|].
  destruct (String.eqb_spec c "."); [done|]. simpl.
  destruct (String.eqb_spec c "..") as [->|].
  - destruct st as [|top rest].
    + destruct r; [done|]. constructor; [by left|done].
    + inversion_clear Hst.
      destruct (String.eqb_spec top ".."); [|done].
      constructor; [by left|]. by constructor.
  - constructor; [|done]. right. unfold plain.
    rewrite !andb_true_iff, !negb_true_iff, !String.eqb_neq. done.
Qed.

Lemma step_cases c :
  (∀ r st, step r st c = st) ∨ c = ".." ∨ (∀ r st, step r st c = c :: st).
Proof.
  unfold step.
  destruct (String.eqb_spec c ""); [by left|].
  destruct (String.eqb_spec c "."); [by left|].
  destruct (String.eqb_spec c ".."); [by right; left|by right; right].
Qed.

(** Walking what a relative walk left is walking the path itself. *)
Lemma fold_step_relative l st0 :
  Forall (λ c, slash_free c = true) l →
  fold_left (step true) (rev (fold_left (step false) l [])) st0
  = fold_left (step true) l st0.
Proof.
  induction l as [|c l IH] using rev_ind; intros Hl; [done|].
  apply Forall_app in Hl as [Hl _]. specialize (IH Hl).
  rewrite !fold_left_app. simpl.
  pose proof (fold_step_kept false l [] Hl ltac:(constructor)) as Hk.
  rewrite <- IH. clear IH.
  destruct (step_cases c) as [H|[->|H]]; rewrite ?H; [done| |].
  - destruct (fold_left (step false) l []) as [|top rest]; [done|].
    unfold step at 2. simpl.
    destruct (String.eqb_spec top "..") as [->|Htop].
    + simpl. by rewrite fold_left_app.
    + inversion_clear Hk as [|?? [?|Hp] _]; [done|].
      simpl. rewrite fold_left_app. simpl.
      rewrite (plain_step _ _ top Hp). unfold step. simpl.
      by destruct (String.eqb_spec top "..").
  - simpl. rewrite fold_left_app. simpl. by rewrite H.
Qed.

Lemma concat_nonempty c l : c ≠ "" → String.concat "/" (c :: l) ≠ "".
Proof. destruct c; [done|]. by destruct l. Qed.

(** The walk of a path skips what [split] adds for a separator at an end. *)
Lemma fold_step_split_concat r l st :
  Forall kept l →
  fold_left (step r) (split (String.concat "/" l)) st = fold_left (step r) l st.
Proof.
  intros Hl. destruct l as [|c l]; [done|].
  inversion_clear Hl as [|?? Hc Hl'].
  rewrite split_concat.
  - rewrite split_slash_free; [done|].
    destruct Hc as [->|?]; [done|by apply plain_slash_free].
  - eapply Forall_impl; [done|]. intros x [->|?]; [done|by apply plain_slash_free].
Qed.

Lemma normalize_kept r s : Forall kept (normalize r (split s)).
Proof.
  unfold normalize. apply Forall_rev.
  apply fold_step_kept; [apply split_all_slash_free|constructor].
Qed.

Lemma kept_not_rooted c : kept c → rooted c = false.
Proof. intros [->|?]; [done|by apply plain_not_rooted]. Qed.

Lemma kept_nonempty c : kept c → c ≠ "".
Proof. intros [->|?]; [done|by apply plain_nonempty]. Qed.

(** The kernel finds the same entry under a path and under its [Clean]. *)
Lemma resolve_Clean cwd s : resolve cwd (Clean s) = resolve cwd s.
Proof.
  unfold resolve, Clean, render.
  pose proof (normalize_kept (rooted s) s) as Hk.
  destruct (rooted s) eqn:Hr.
  - assert (Hp : Forall (λ c, plain c = true) (normalize true (split s))).
    { apply Forall_rev, fold_step_rooted_plain;
        [apply split_all_slash_free|constructor]. }
    set (N := normalize true (split s)) in *.
    change (rooted ("/" +:+ String.concat "/" N)) with true. cbv iota.
    change (split ("/" +:+ String.concat "/" N))
      with ("" :: split (String.concat "/" N)).
    unfold normalize. simpl.
    rewrite fold_step_split_concat, fold_step_plain by done.
    by rewrite app_nil_r, rev_involutive.
  - destruct (normalize false (split s)) as [|c l] eqn:Hn.
    + simpl. unfold normalize. f_equal. rewrite !fold_left_app. simpl.
      rewrite <- (fold_step_relative (split s)) by apply split_all_slash_free.
      unfold normalize in Hn. apply (f_equal (@rev string)) in Hn.
      rewrite rev_involutive in Hn. by rewrite Hn.
    + inversion Hk as [|?? Hc Hl]; subst.
      rewrite rooted_concat by by apply kept_nonempty.
      rewrite (kept_not_rooted c Hc).
      unfold normalize at 1 2. f_equal.
      rewrite !fold_left_app.
      rewrite fold_step_split_concat by done.
      rewrite <- Hn. unfold normalize.
      apply fold_step_relative, split_all_slash_free.
Qed.

Lemma Join_cons e rest :
  e ≠ "" → Join (e :: rest) = Clean (String.concat "/" (e :: rest)).
Proof. intros He. cbn [Join]. by rewrite (proj2 (String.eqb_neq e "")). Qed.

(** Joining entry names to a path walks on from the entry of the path. *)
Lemma resolve_Join cwd p l :
  Forall (λ c, plain c = true) l →
  resolve cwd (Join (p :: l)) = resolve cwd p ++ l.
Proof.
  intros Hl.
  assert (Hsf : Forall (λ c, slash_free c = true) l).
  { eapply Forall_impl; [done|]. apply plain_slash_free. }
  destruct (String.eqb_spec p "") as [->|Hp].
  - change (Join ("" :: l)) with (Join l).
    destruct l as [|c l]; [by rewrite app_nil_r|].
    inversion_clear Hl as [|?? Hc Hl']. inversion_clear Hsf.
    rewrite Join_cons, resolve_Clean by by apply plain_nonempty.
    unfold resolve.
    rewrite rooted_concat by by apply plain_nonempty.
    rewrite plain_not_rooted by done. cbn [rooted].
    rewrite split_concat by done. rewrite (split_slash_free c) by done.
    unfold normalize. rewrite !fold_left_app. cbn [fold_left split].
    rewrite (plain_step _ _ c), fold_step_plain by done.
    change (step true (fold_left (step true) (split cwd) []) "")
      with (fold_left (step true) (split cwd) []).
    rewrite rev_app_distr, rev_involutive. cbn [rev app].
    by rewrite <- app_assoc.
  - rewrite Join_cons, resolve_Clean by done. unfold resolve.
    rewrite rooted_concat, split_concat by done.
    unfold normalize.
    destruct (rooted p); rewrite ?app_assoc, fold_left_app, fold_step_plain by done;
      by rewrite rev_app_distr, rev_involutive.
Qed.

End FilepathFacts.

(** ** The file tree *)

Arguments Filepath.Join : simpl never.

Lemma walk_app p q n :
  walk (p ++ q) n = match walk p n with inr x => walk q x | inl no => inl no end.
Proof.
  revert n. induction p as [|c p IH]; intros n; simpl; [done|].
  destruct n as [|m]; [done|]. by destruct (m !! c).
Qed.

Lemma put_cons c p v m :
  p ≠ [] → put (c :: p) v (Dir m) = Dir (alter (put p v) c m).
Proof. by destruct p. Qed.

(** An entry that leaves the way to [p] by another name is not touched. *)
Lemma walk_put_frame q a b r1 r2 v n :
  a ≠ b → walk (q ++ a :: r1) (put (q ++ b :: r2) v n) = walk (q ++ a :: r1) n.
Proof.
  intros Hab. revert n. induction q as [|c q IH]; intros n.
  - simpl. destruct n as [|m]; [done|]. destruct r2; simpl.
    + by rewrite lookup_partial_alter_ne.
    + by rewrite lookup_alter_ne.
  - destruct n as [|m]; [done|].
    change ((c :: q) ++ b :: r2) with (c :: (q ++ b :: r2)).
    rewrite put_cons by by destruct q.
    simpl. rewrite lookup_alter_eq. destruct (m !! c); simpl; [apply IH|done].
Qed.

Lemma walk_put_below q c r v n m :
  walk q n = inr (Dir m) →
  walk (q ++ c :: r) (put (q ++ [c]) v n)
  = match v with Some x => walk r x | None => inl ENOENT end.
Proof.
  revert n. induction q as [|d q IH]; intros n Hq.
  - simpl in Hq. injection Hq as ->. simpl.
    rewrite lookup_partial_alter_eq. by destruct v.
  - destruct n as [|m']; [done|].
    change ((d :: q) ++ [c]) with (d :: (q ++ [c])).
    rewrite put_cons by by destruct q.
    simpl in *. rewrite lookup_alter_eq.
    destruct (m' !! d); simpl; [by apply IH|done].
Qed.

Lemma walk_put_same q c v n m :
  walk q n = inr (Dir m) →
  walk (q ++ [c]) (put (q ++ [c]) v n)
  = match v with Some x => inr x | None => inl ENOENT end.
Proof. intros H. by rewrite (walk_put_below _ _ [] _ _ _ H). Qed.



(** The last write wins. *)
Lemma put_put p v1 v2 n : put p v2 (put p v1 n) = put p v2 n.
Proof.
  revert n. induction p as [|c p IH]; intros n; [done|].
  destruct n as [|m]; [done|]. destruct p as [|c' p].
  - simpl. f_equal. by rewrite partial_alter_partial_alter_eq.
  - rewrite !put_cons by done. f_equal.
    rewrite alter_alter_eq. apply alter_ext. intros; apply IH.
Qed.

Lemma removelast_snoc (q : list string) c : removelast (q ++ [c]) = q.
Proof. apply removelast_last. Qed.

Lemma parent_dir_snoc q c n m :
  parent_dir (q ++ [c]) n = inr m ↔ walk q n = inr (Dir m).
Proof.
  unfold parent_dir. rewrite removelast_snoc.
  destruct (walk q n) as [|[|]]; naive_solver.
Qed.

Lemma mkdirAll_frame q a b r1 r2 n n' :
  a ≠ b → mkdirAll (q ++ b :: r2) n = inr n' →
  walk (q ++ a :: r1) n' = walk (q ++ a :: r1) n.
Proof.
  intros Hab. revert n n'. induction q as [|c q IH]; intros n n'; simpl.
  - destruct n as [|m]; [done|].
    destruct (mkdirAll r2 _); [done|]. intros [= <-].
    by rewrite lookup_insert_ne.
  - destruct n as [|m]; [done|].
    destruct (mkdirAll (q ++ b :: r2) _) as [|x] eqn:Hx; [done|].
    intros [= <-]. rewrite lookup_insert_eq.
    rewrite (IH _ _ Hx). destruct (m !! c); [done|].
    simpl. destruct q; simpl; by rewrite lookup_empty.
Qed.

(** ** The monad *)

Lemma bind_Ok {A B} (c : M A) (k : A → M B) w b w' :
  bind c k w = (Ok b, w') → ∃ a w1, c w = (Ok a, w1) ∧ k a w1 = (Ok b, w').
Proof. unfold bind. destruct (c w) as [[a|e] w1]; [eauto|done]. Qed.

Lemma update_Ok env c mkerr f w u w' :
  update env c mkerr f w = (Ok u, w') →
  f (fs w) = inr (fs w') ∧ log w' = log w.
Proof.
  unfold update. destruct (fault env c); [done|].
  destruct (f (fs w)); [done|]. by intros [= _ <-].
Qed.

Lemma update_sound env c mkerr f w u w' :
  update env c mkerr f w = (Ok u, w') → fault env c = None.
Proof. unfold update. by destruct (fault env c). Qed.

Lemma query_Ok {A} env c mkerr (f : node → errno + A) w a w' :
  query env c mkerr f w = (Ok a, w') → f (fs w) = inr a ∧ w' = w.
Proof.
  unfold query. destruct (fault env c); [done|].
  destruct (f (fs w)); [done|]. by intros [= <- <-].
Qed.

Lemma query_sound {A} env c mkerr (f : node → errno + A) w a w' :
  query env c mkerr f w = (Ok a, w') → fault env c = None.
Proof. unfold query. by destruct (fault env c). Qed.

Tactic Notation "inv_bind" ident(H) "as" ident(w) ident(H1) :=
  let a := fresh "a" in
  apply bind_Ok in H; destruct H as (a & w & H1 & H).

(** ** Moving an entry *)

Lemma fs_rename_moved q q' c n n' :
  q ++ [c] ≠ q' ++ [c] →
  is_prefix (q ++ [c]) (q' ++ [c]) = false →
  fs_rename (q ++ [c]) (q' ++ [c]) n = inr n' →
  ∃ x m, walk (q ++ [c]) n = inr x ∧ walk q' n = inr (Dir m) ∧
    n' = put (q' ++ [c]) (Some x) (put (q ++ [c]) None n).
Proof.
  intros Hne Hpre. unfold fs_rename.
  destruct (walk (q ++ [c]) n) as [|x] eqn:Hx; [done|].
  destruct (parent_dir (q' ++ [c]) n) as [|m] eqn:Hm; [done|].
  apply parent_dir_snoc in Hm.
  rewrite bool_decide_false, Hpre by done.
  intros H. exists x, m. split_and!; [done..|].
  destruct x, (walk (q' ++ [c]) n) as [|[|m']]; try done; try congruence.
  by case_bool_decide; simplify_eq.
Qed.

Lemma is_prefix_diverge (q : list string) a b r :
  a ≠ b → is_prefix (q ++ [a]) (q ++ b :: r) = false.
Proof.
  intros Hab. unfold is_prefix. apply bool_decide_eq_false.
  rewrite length_app. simpl. rewrite take_app_add. simpl.
  intros H%app_inv_head. congruence.
Qed.

Lemma walk_snoc_parent q c n x :
  walk (q ++ [c]) n = inr x → ∃ m, walk q n = inr (Dir m).
Proof.
  rewrite walk_app. destruct (walk q n) as [|[|m]]; [done|done|eauto].
Qed.

Lemma app_cons_assoc (q : list string) c r l :
  (q ++ c :: r) ++ l = q ++ c :: (r ++ l).
Proof. by rewrite <- app_assoc. Qed.

(** One subtree moved from the project root to a directory below
    [root/cmd]. *)
Lemma rename_below_cmd root rest d n n' :
  d ≠ "cmd" →
  fs_rename (root ++ [d]) ((root ++ "cmd" :: rest) ++ [d]) n = inr n' →
  ∃ x, walk (root ++ [d]) n = inr x ∧
    walk ((root ++ "cmd" :: rest) ++ [d]) n' = inr x ∧
    walk (root ++ [d]) n' = inl ENOENT ∧
    (∀ d' r, d' ≠ d → d' ≠ "cmd" →
       walk (root ++ d' :: r) n' = walk (root ++ d' :: r) n) ∧
    (∀ d' r, d' ≠ d →
       walk ((root ++ "cmd" :: rest) ++ d' :: r) n'
       = walk ((root ++ "cmd" :: rest) ++ d' :: r) n).
Proof.
  intros Hd Hr. apply fs_rename_moved in Hr as (x & m & Hx & Hm & ->).
  - exists x. destruct (walk_snoc_parent _ _ _ _ Hx) as [mr Hroot].
    split_and!; [done| | | |].
    + erewrite walk_put_same; [done|]. by rewrite walk_put_frame.
    + rewrite (app_cons_assoc root), walk_put_frame by done.
      by erewrite walk_put_same.
    + intros d' r ??.
      by rewrite (app_cons_assoc root), !walk_put_frame by done.
    + intros d' r ?. rewrite walk_put_frame by done.
      rewrite (app_cons_assoc root). by rewrite walk_put_frame.
  - rewrite (app_cons_assoc root). intros H%app_inv_head. by simplify_eq.
  - rewrite (app_cons_assoc root). by apply is_prefix_diverge.
Qed.

Lemma fs_mkdir_made q c n n' :
  fs_mkdir (q ++ [c]) n = inr n' →
  ∃ m, walk q n = inr (Dir m) ∧ n' = put (q ++ [c]) (Some (Dir ∅)) n.
Proof.
  unfold fs_mkdir. destruct (walk (q ++ [c]) n); [|done].
  destruct (parent_dir (q ++ [c]) n) as [|m] eqn:Hm; [done|].
  apply parent_dir_snoc in Hm. intros [= <-]. eauto.
Qed.

Section Vendor.

Context (env : Env).

Lemma entry_Join p l :
  Forall (λ c, Filepath.plain c = true) l →
  entry env (Filepath.Join (p :: l)) = entry env p ++ l.
Proof. apply FilepathFacts.resolve_Join. Qed.


End Vendor.

(** ** The copy pass *)

Lemma elem_of_insert_sorted x y l : x ∈ insert_sorted y l ↔ x = y ∨ x ∈ l.
Proof.
  induction l as [|z l IH]; simpl.
  - rewrite list_elem_of_singleton, elem_of_nil. tauto.
  - destruct (String.leb y z).
    + by rewrite elem_of_cons.
    + rewrite !elem_of_cons, IH. tauto.
Qed.

Lemma elem_of_names n (m : gmap string node) : n ∈ names m ↔ is_Some (m !! n).
Proof.
  unfold names. trans (n ∈ (map_to_list m).*1).
  - induction ((map_to_list m).*1) as [|y l IH]; simpl; [done|].
    by rewrite elem_of_insert_sorted, elem_of_cons, IH.
  - rewrite list_elem_of_fmap. split.
    + intros ([k x] & -> & H). apply elem_of_map_to_list in H. by exists x.
    + intros [x H]. exists (n, x). split; [done|]. by apply elem_of_map_to_list.
Qed.

Section Copy.

Context (env : Env).

(** The entries of the user content directory and of the vendored content
    directory of the project in the directory [pwd]. *)
Context (pwd : string).
Abbreviation src := (userContentDir pwd).
Abbreviation dst := (vendoredContentDir pwd).
Abbreviation S := (userContentEntry env pwd).
Abbreviation D := (vendoredContentEntry env pwd).

Lemma entry_src : entry env src = S.
Proof. apply entry_Join. by repeat constructor. Qed.

Lemma entry_dst : entry env dst = D.
Proof. apply entry_Join. by repeat constructor. Qed.

Lemma entry_src_file n :
  Filepath.plain n = true → entry env (Filepath.Join [src; n]) = S ++ [n].
Proof. intros. rewrite entry_Join, entry_src by by constructor. done. Qed.

Lemma entry_dst_file n :
  Filepath.plain n = true → entry env (Filepath.Join [dst; n]) = D ++ [n].
Proof. intros. rewrite entry_Join, entry_dst by by constructor. done. Qed.

Lemma walk_S_put_D r1 r2 v t :
  walk (S ++ r1) (put (D ++ r2) v t) = walk (S ++ r1) t.
Proof.
  unfold userContentEntry, vendoredContentEntry.
  rewrite !app_cons_assoc. by apply walk_put_frame.
Qed.

Lemma fs_create_made q c t t' :
  fs_create (q ++ [c]) t = inr t' →
  (∃ m, walk q t = inr (Dir m)) ∧ t' = put (q ++ [c]) (Some (File "")) t.
Proof.
  unfold fs_create. destruct (walk (q ++ [c]) t) as [|[|]] eqn:Hw.
  - destruct (parent_dir (q ++ [c]) t) as [|m] eqn:Hm; [done|].
    apply parent_dir_snoc in Hm. intros [= <-]. eauto.
  - intros [= <-]. split; [|done]. by eapply walk_snoc_parent.
  - done.
Qed.

Lemma copyRound_Ok n w u w' :
  Filepath.plain n = true →
  copyRound env pwd n w = (Ok u, w') →
  ∃ data m, walk (S ++ [n]) (fs w) = inr (File data) ∧
    walk D (fs w) = inr (Dir m) ∧
    fs w' = put (D ++ [n]) (Some (File data)) (fs w) ∧
    log w' = log w ∧ sound env pwd n.
Proof.
  intros Hn H. unfold copyRound; unfold os_Create, os_Open, io_Copy in H.
  inv_bind H as w1 Hc. inv_bind Hc as w1' Hc'.
  unfold ret in Hc. injection Hc as <- <-.
  pose proof (update_sound _ _ _ _ _ _ _ Hc') as Hfc.
  apply update_Ok in Hc' as [Hc' Hl1].
  inv_bind H as w2 Ho.
  pose proof (query_sound _ _ _ _ _ _ _ Ho) as Hfo.
  apply query_Ok in Ho as [Ho ->].
  destruct (walk _ (fs w1')) in Ho; [done|]. injection Ho as <-.
  inv_bind H as w3 Hr. cbn [f_name f_entry] in *.
  pose proof (query_sound _ _ _ _ _ _ _ Hr) as Hfr.
  apply query_Ok in Hr as [Hr ->].
  pose proof (update_sound _ _ _ _ _ _ _ H) as Hfw.
  apply update_Ok in H as [Hw Hl2].
  rewrite ?entry_src_file, ?entry_dst_file in * by done.
  apply fs_create_made in Hc' as [[m Hm] Hc'].
  unfold fs_read in Hr. rewrite Hc', walk_S_put_D in Hr.
  destruct (walk (S ++ [n]) (fs w)) as [|[data|]] eqn:Hs; [done| |done].
  injection Hr as <-. exists data, m. split_and!; [done|done| |congruence|done].
  unfold fs_write in Hw. rewrite Hc' in Hw.
  erewrite walk_put_same in Hw by done. injection Hw as <-.
  by rewrite put_put.
Qed.

Lemma copyLoop_cons n ns acc w :
  copyLoop env src dst (n :: ns) acc w
  = match copyRound env pwd n w with
    | (Ok _, w1) => copyLoop env src dst ns (checkConflicts n acc) w1
    | (Err e, w1) => (Err e, w1)
    end.
Proof.
  cbn [copyLoop]. unfold copyRound, bind.
  destruct (os_Create env _ w) as [[f|] w1]; [|done].
  destruct (os_Open env _ w1) as [[g|] w2]; [|done]. done.
Qed.

Lemma copied_entries n t t' :
  Filepath.plain n = true → copied env pwd n t t' ↔ copied_at env pwd n t t'.
Proof.
  intros Hn. unfold copied, copied_at, at_path.
  by rewrite entry_src_file, entry_dst_file.
Qed.

Lemma copyLoop_Ok ns acc w acc' w' :
  Forall (λ n, Filepath.plain n = true) ns →
  copyLoop env src dst ns acc w = (Ok acc', w') →
  acc' = conflicts ns acc ∧ log w' = log w ∧ Forall (sound env pwd) ns ∧
  (∀ r, walk (S ++ r) (fs w') = walk (S ++ r) (fs w)) ∧
  (∀ n, n ∈ ns → copied_at env pwd n (fs w) (fs w')) ∧
  (∀ n r, n ∉ ns → walk (D ++ n :: r) (fs w') = walk (D ++ n :: r) (fs w)).
Proof.
  intros Hns. revert acc w. induction Hns as [|n ns Hn Hns IH]; intros acc w.
  - intros [= <- <-]. split_and!; try done. intros n []%elem_of_nil.
  - rewrite copyLoop_cons.
    destruct (copyRound env pwd n w) as [[u|] w1] eqn:Hround; [|done].
    apply copyRound_Ok in Hround as (data & m & Hsrc & Hdir & Hfs & Hlog & Hsound);
      [|done].
    intros (-> & Hlog' & Hsounds & Hframe & Hcopied & Hrest)%IH.
    assert (Hsame : ∀ r, walk (S ++ r) (fs w1) = walk (S ++ r) (fs w)).
    { intros r. by rewrite Hfs, walk_S_put_D. }
    split_and!; [done|congruence|by constructor| | |].
    + intros r. by rewrite Hframe.
    + intros n' Hn'. destruct (decide (n' ∈ ns)) as [Hin|Hout].
      * destruct (Hcopied n' Hin) as (data' & H1 & H2).
        exists data'. by rewrite <- Hsame.
      * apply elem_of_cons in Hn' as [->|]; [|done].
        exists data. split; [done|].
        rewrite Hrest, Hfs by done. by erewrite walk_put_same.
    + intros n' r [Hne Hout]%not_elem_of_cons.
      rewrite Hrest, Hfs by done. by apply walk_put_frame.
Qed.



Lemma copyLoop_Err ns acc w e w' :
  copyLoop env src dst ns acc w = (Err e, w') → ∃ op p no, e = PathError op p no.
Proof.
  revert acc w. induction ns as [|n ns IH]; intros acc w; [done|].
  rewrite copyLoop_cons.
  destruct (copyRound env pwd n w) as [[u|e'] w1] eqn:Hround; [by apply IH|].
  intros [= <- <-]. revert Hround.
  unfold copyRound, os_Create, os_Open, io_Copy, bind, update, query, ret.
  repeat (first [ destruct (fault env _) | destruct (fs_create _ _)
                | destruct (walk _ _) | destruct (fs_read _ _)
                | destruct (fs_write _ _ _) ];
          cbn [f_name f_entry fs log]; try done; try (intros [= <- _]; eauto)).
Qed.

(** *** [reconcile] *)

Lemma forM_Println l w :
  forM_ l (λ file, Println [file]) w
  = (Ok tt, mkWorld (fs w) (log w ++ map Print l)).
Proof.
  revert w. induction l as [|x l IH]; intros w.
  - simpl. rewrite app_nil_r. by destruct w.
  - cbn [forM_]. unfold bind. cbn [Println]. rewrite IH. cbn [fs log map].
    by rewrite <- app_assoc.
Qed.

Lemma reconcile_unfold :
  reconcile env pwd
  = (srcFiles <- ioutil_ReadDir env src ;;
     mustRenameFiles <- copyLoop env src dst srcFiles [] ;;
     if (1 <? length mustRenameFiles)%nat then
       Println ["Ponzu couldn't fully build your project:"] ;;
       Println ["Some of your files in the content directory exist in the vendored directory."] ;;
       Println ["You must rename the following files, as they conflict with Ponzu core:"] ;;
       forM_ mustRenameFiles (λ file, Println [file]) ;;
       Println ["Once the files above have been renamed, run '$ ponzu build' to retry."] ;;
       throw conflictError
     else ret tt).
Proof. reflexivity. Qed.

Lemma userFiles_names t m :
  walk S t = inr (Dir m) → userFiles env pwd t = names m.
Proof.
  intros H. unfold userFiles, at_path. by rewrite entry_src, H.
Qed.

(** What a run of [reconcile] has done, by its result. *)
Lemma reconcile_inv w r w' :
  reconcile env pwd w = (r, w') →
  (∃ op p no, r = Err (PathError op p no)) ∨
  ∃ acc w1,
    fault env (SysReadDir src) = None ∧
    (∃ m, walk S (fs w) = inr (Dir m)) ∧
    copyLoop env src dst (userFiles env pwd (fs w)) [] w = (Ok acc, w1) ∧
    if (1 <? length acc)%nat
    then r = Err conflictError ∧
         w' = mkWorld (fs w1) (log w1 ++ conflictReport acc)
    else r = Ok tt ∧ w' = w1.
Proof.
  rewrite reconcile_unfold. unfold bind at 1.
  unfold ioutil_ReadDir, query, fs_readDir. rewrite entry_src.
  destruct (fault env (SysReadDir src)) eqn:Hf; [intros [= <- _]; eauto 6|].
  destruct (walk S (fs w)) as [|[|m]] eqn:Hm; [intros [= <- _]; eauto 6..|].
  rewrite (userFiles_names _ _ Hm). unfold bind at 1.
  destruct (copyLoop env src dst (names m) [] w) as [[acc|e] w1] eqn:Hloop.
  - intros H. right. exists acc, w1. split_and!; [done|by eauto|done|].
    destruct (1 <? length acc)%nat.
    + revert H. unfold bind, Println, throw. rewrite forM_Println.
      cbn [fs log String.concat]. intros [= <- <-]. split; [done|].
      unfold conflictReport. by rewrite <- !app_assoc.
    + by injection H as <- <-.
  - intros [= <- _]. left.
    destruct (copyLoop_Err _ _ _ _ _ Hloop) as (op & p & no & ->). eauto.
Qed.

Lemma reconcile_run w m acc w1 :
  fault env (SysReadDir src) = None →
  walk S (fs w) = inr (Dir m) →
  copyLoop env src dst (names m) [] w = (Ok acc, w1) →
  (length acc ≤ 1)%nat →
  reconcile env pwd w = (Ok tt, w1).
Proof.
  intros Hf Hm Hloop Hacc. rewrite reconcile_unfold. unfold bind at 1.
  unfold ioutil_ReadDir, query, fs_readDir. rewrite entry_src, Hf, Hm.
  unfold bind at 1. rewrite Hloop.
  by rewrite (proj2 (Nat.ltb_ge 1 (length acc))).
Qed.



Lemma forallb_Forall {A} (f : A → bool) l :
  forallb f l = true → Forall (λ x, f x = true) l.
Proof.
  induction l as [|x l IH]; simpl; [done|].
  intros [??]%andb_prop. constructor; auto.
Qed.

Lemma walk_S_frame t t' :
  (∀ r, walk (S ++ r) t' = walk (S ++ r) t) → walk S t' = walk S t.
Proof. intros H. specialize (H []). by rewrite app_nil_r in H. Qed.

(** A run of [reconcile] that returns no file system error has copied
    every user file. *)
Lemma reconcile_copied w r w' :
  forallb Filepath.plain (userFiles env pwd (fs w)) = true →
  reconcile env pwd w = (r, w') →
  (∃ op p no, r = Err (PathError op p no)) ∨
  (r = Ok tt ∨ r = Err conflictError) ∧
  userFiles env pwd (fs w') = userFiles env pwd (fs w) ∧
  ∀ n, n ∈ userFiles env pwd (fs w) → copied env pwd n (fs w) (fs w').
Proof.
  intros Hplain%forallb_Forall
    [?|(acc & w1 & Hf & [m Hm] & Hloop & Hres)]%reconcile_inv; [by left|right].
  apply copyLoop_Ok in Hloop as (_ & _ & _ & Hframe & Hcopied & _); [|done].
  assert (fs w' = fs w1 ∧ (r = Ok tt ∨ r = Err conflictError)) as [Hfs Hr].
  { destruct (1 <? length acc)%nat; destruct Hres as [-> ->]; auto. }
  rewrite Hfs. split_and!; [done| |].
  - apply walk_S_frame in Hframe.
    unfold userFiles, at_path. by rewrite entry_src, Hframe.
  - intros n Hn. apply copied_entries; [|by apply Hcopied].
    by eapply Forall_forall in Hplain.
Qed.




End Copy.

(** ** Subprocesses *)

Lemma contains_prefix sub s : String.prefix sub s = true → contains sub s = true.
Proof. intros H. destruct s; cbn [contains]; by rewrite H. Qed.

Lemma prefix_app s t : String.prefix s (s +:+ t) = true.
Proof.
  induction s as [|c s IH]; simpl; [by destruct t|].
  by destruct (Ascii.ascii_dec c c).
Qed.

(** A text occurs in every text that starts with it. *)
Lemma contains_app s b : contains s (s +:+ b) = true.
Proof. apply contains_prefix, prefix_app. Qed.

Lemma execs_app l1 l2 : execs (l1 ++ l2) = execs l1 ++ execs l2.
Proof. apply omap_app. Qed.

Section Quiet.

Context (env : Env).

Lemma starts_nothing_ret {A} (a : A) : starts_nothing (ret a).
Proof. intros w r w' [= _ <-]. exists []. by rewrite app_nil_r. Qed.

Lemma starts_nothing_throw {A} e : starts_nothing (@throw A e).
Proof. intros w r w' [= _ <-]. exists []. by rewrite app_nil_r. Qed.

Lemma starts_nothing_bind {A B} (c : M A) (k : A → M B) :
  starts_nothing c → (∀ a, starts_nothing (k a)) → starts_nothing (bind c k).
Proof.
  intros Hc Hk w r w'. unfold bind.
  destruct (c w) as [[a|e] w1] eqn:H1.
  - intros (rest2 & -> & Hr2)%Hk. apply Hc in H1 as (rest1 & -> & Hr1).
    exists (rest1 ++ rest2). by rewrite app_assoc, execs_app, Hr1, Hr2.
  - intros [= _ <-]. by eapply Hc.
Qed.

Lemma starts_nothing_attempt {A} (c : M A) :
  starts_nothing c → starts_nothing (attempt c).
Proof.
  intros Hc w r w'. unfold attempt.
  destruct (c w) as [r1 w1] eqn:H1. intros [= _ <-]. by eapply Hc.
Qed.

Lemma starts_nothing_update c mkerr f : starts_nothing (update env c mkerr f).
Proof.
  intros w r w' H. exists []. rewrite app_nil_r. revert H. unfold update.
  destruct (fault env c); [by intros [= _ <-]|].
  destruct (f (fs w)); by intros [= _ <-].
Qed.

Lemma starts_nothing_Println l : starts_nothing (Println l).
Proof. intros w r w' [= _ <-]. by eexists. Qed.

Lemma starts_nothing_forM_ {A} (l : list A) body :
  (∀ x, starts_nothing (body x)) → starts_nothing (forM_ l body).
Proof.
  intros Hbody. induction l as [|x l IH]; [apply starts_nothing_ret|].
  by apply starts_nothing_bind.
Qed.

Lemma starts_nothing_vendor path : starts_nothing (vendorCorePackages env path).
Proof.
  unfold vendorCorePackages, os_MkdirAll, os_Rename, os_Mkdir.
  repeat first [ apply starts_nothing_bind; [|intros ?]
               | apply starts_nothing_forM_; intros ?
               | apply starts_nothing_update
               | apply starts_nothing_ret ].
Qed.

Lemma starts_nothing_finish path : starts_nothing (finishProject env path).
Proof.
  unfold finishProject.
  apply starts_nothing_bind; [apply starts_nothing_vendor|intros _].
  apply starts_nothing_bind;
    [apply starts_nothing_attempt, starts_nothing_update|intros r].
  apply starts_nothing_bind.
  { destruct r; [apply starts_nothing_ret|apply starts_nothing_Println]. }
  intros _. apply starts_nothing_bind;
    [apply starts_nothing_Println|intros; apply starts_nothing_ret].
Qed.

End Quiet.

(** ** [createProjInDir] *)

Section Clone.

Context (env : Env).

Lemma os_MkdirAll_log path w u w1 :
  os_MkdirAll env path w = (Ok u, w1) → log w1 = log w.
Proof. unfold os_MkdirAll. by intros [_ ?]%update_Ok. Qed.

(** The run of [createProjInDir] without [dev], by what the two clones
    do. *)
Lemma createProjInDir_clone path w w1 :
  dev env = false →
  os_MkdirAll env path w = (Ok tt, w1) →
  createProjInDir env path w
  = let l1 := log w ++ [Exec (localClone env path)] in
    match run env (localClone env path) (fs w1) with
    | StartFail e => (Err e, mkWorld (fs w1) l1)
    | Exit None t => finishProject env path (mkWorld t l1)
    | Exit (Some _) t =>
        let l2 :=
          l1 ++ [Print (transitionNotice env); Exec (networkClone path)] in
        match run env (networkClone path) t with
        | StartFail e =>
            (Err e, mkWorld t (l2 ++ [Print networkStartNotice]))
        | Exit (Some e) t' =>
            (Err (cloneFailed env e),
             mkWorld t' (l2 ++ [Print "Network clone failure."]))
        | Exit None t' => finishProject env path (mkWorld t' l2)
        end
    end.
Proof.
  intros Hdev Hmk. pose proof (os_MkdirAll_log _ _ _ _ Hmk) as Hlog.
  unfold createProjInDir, finishProject, cloneFailed, transitionNotice,
    networkStartNotice, localClone, networkClone, localRepo, networkRepo.
  cbv [bind attempt cmd_Start cmd_Wait exec_Command throw ret Println].
  rewrite Hmk, Hdev, Hlog. cbn [fs log p_status p_tree].
  destruct (run env _ (fs w1)) as [e|[e|] t]; cbn [fs log p_status p_tree];
    [done| |done].
  destruct (run env _ t) as [e2|[e2|] t']; cbn [fs log p_status p_tree];
    rewrite <- ?app_assoc; done.
Qed.

(** The run of [createProjInDir] with [dev]. *)
Lemma createProjInDir_dev path w w1 :
  dev env = true →
  os_MkdirAll env path w = (Ok tt, w1) →
  createProjInDir env path w
  = let l1 := log w ++ [Exec (devClone env path)] in
    match run env (devClone env path) (fs w1) with
    | StartFail e => (Err e, mkWorld (fs w1) l1)
    | Exit (Some e) t => (Err e, mkWorld t l1)
    | Exit None t =>
        (vendorCorePackages env path ;;
         Println
           ["Dev build cloned from "
            +:+ (if fork env =? "" then localRepo env else forkRepo env)
            +:+ ":ponzu-dev"] ;;
         ret tt) (mkWorld t l1)
    end.
Proof.
  intros Hdev Hmk. pose proof (os_MkdirAll_log _ _ _ _ Hmk) as Hlog.
  unfold createProjInDir, devClone, localRepo, forkRepo.
  cbv [bind attempt cmd_Start cmd_Wait exec_Command throw ret Println].
  rewrite Hmk, Hdev, Hlog. cbn [fs log p_status p_tree].
  destruct (fork env =? ""); cbn [negb];
    destruct (run env _ (fs w1)) as [e|[e|] t]; cbn [fs log p_status p_tree];
    done.
Qed.

End Clone.

Lemma contains_skip a s b : contains s b = true → contains s (a +:+ b) = true.
Proof.
  intros H. induction a as [|c a IH]; [done|].
  change (String c a +:+ b) with (String c (a +:+ b)).
  cbn [contains]. rewrite IH. apply orb_true_r.
Qed.

Lemma contains_self s : contains s s = true.
Proof.
  apply contains_prefix. induction s as [|c s IH]; simpl; [done|].
  by destruct (Ascii.ascii_dec c c).
Qed.

Lemma finishProject_Ok env path w u w1 :
  vendorCorePackages env path w = (Ok u, w1) →
  (finishProject env path w).1 = Ok tt.
Proof.
  intros H. unfold finishProject. unfold bind at 1. rewrite H.
  cbv [bind attempt Println ret]. destruct (os_RemoveAll env _ w1) as [[|] ?]; done.
Qed.

(** C3. Without [dev] the local clone is started first.  A clone over the
    network follows, once and after the notice, exactly when the local
    clone has started and ended badly; a local clone that cannot start is
    returned as the error, with no second attempt.  When the local clone
    ends badly and the clone over the network ends well, the project is
    finished on the tree it left, and the result is success when the
    vendoring succeeds. *)
Theorem network_retry_after_local_exit env path w w1 r w' :
  dev env = false →
  os_MkdirAll env path w = (Ok tt, w1) →
  createProjInDir env path w = (r, w') →
  let local := localClone env path in
  let network := networkClone path in
  let retried := [Exec local; Print (transitionNotice env); Exec network] in
  match run env local (fs w1) with
  | StartFail e => r = Err e ∧ execs (log w') = execs (log w) ++ [local]
  | Exit None _ => execs (log w') = execs (log w) ++ [local]
  | Exit (Some _) t =>
      (∃ rest, log w' = log w ++ retried ++ rest ∧ execs rest = []) ∧
      ∀ t', run env network t = Exit None t' →
        (r, w') = finishProject env path (mkWorld t' (log w ++ retried)) ∧
        ∀ w3, vendorCorePackages env path (mkWorld t' (log w ++ retried))
              = (Ok tt, w3) → r = Ok tt
  end.
Proof.
  intros Hdev Hmk. rewrite (createProjInDir_clone _ _ _ _ Hdev Hmk). cbv zeta.
  destruct (run env (localClone env path) (fs w1)) as [e|[e|] t].
  - intros [= <- <-]. cbn [log]. split; [done|].
    rewrite execs_app. done.
  - intros Hrun. split.
    + destruct (run env (networkClone path) t) as [e2|[e2|] t'].
      * injection Hrun as <- <-. cbn [log]. eexists [_].
        by rewrite <- !app_assoc.
      * injection Hrun as <- <-. cbn [log]. eexists [_].
        by rewrite <- !app_assoc.
      * apply starts_nothing_finish in Hrun as (rest & -> & Hrest).
        exists rest. cbn [log]. by rewrite <- !app_assoc.
    + intros t' Ht'. rewrite Ht', <- app_assoc in Hrun. cbn [app] in Hrun.
      split; [done|].
      intros w3 Hv%finishProject_Ok. by rewrite Hrun in Hv.
  - intros (rest & -> & Hrest)%starts_nothing_finish. cbn [log].
    rewrite !execs_app, Hrest. simpl. by rewrite app_nil_r.
Qed.



(** C5. With [dev] one clone is started, of the branch ponzu-dev alone, from
    the local repository, or from the fork below GOPATH/src when [fork] is
    not empty; no other subprocess is started, and a clone that cannot
    start or that ends badly is returned as the error at once. *)
Theorem dev_clone_no_fallback env path w w1 r w' :
  dev env = true →
  os_MkdirAll env path w = (Ok tt, w1) →
  createProjInDir env path w = (r, w') →
  let source :=
    if fork env =? ""
    then Filepath.Join
           [GOPATH env; "src"; Filepath.Join ["github.com"; "bosssauce"; "ponzu"]]
    else Filepath.Join [GOPATH env; "src"; fork env] in
  let clone :=
    ["git"; "clone"; source; "--branch"; "ponzu-dev"; "--single-branch"; path] in
  execs (log w') = execs (log w) ++ [clone] ∧
  (∀ e, run env clone (fs w1) = StartFail e →
     r = Err e ∧ w' = mkWorld (fs w1) (log w ++ [Exec clone])) ∧
  (∀ e t, run env clone (fs w1) = Exit (Some e) t →
     r = Err e ∧ w' = mkWorld t (log w ++ [Exec clone])).
Proof.
  intros Hdev Hmk. rewrite (createProjInDir_dev _ _ _ _ Hdev Hmk). cbv zeta.
  change ["git"; "clone"; _; "--branch"; "ponzu-dev"; "--single-branch"; path]
    with (devClone env path).
  destruct (run env (devClone env path) (fs w1)) as [e|[e|] t].
  - intros [= <- <-]. cbn [log]. rewrite execs_app.
    split_and!; [done| |done]. by intros ? [= <-].
  - intros [= <- <-]. cbn [log]. rewrite execs_app.
    split_and!; [done|done|]. by intros ?? [= <- <-].
  - intros Hrun. split_and!; [|done..].
    assert (Hq : starts_nothing
      (vendorCorePackages env path ;;
       Println ["Dev build cloned from "
                +:+ (if fork env =? "" then localRepo env else forkRepo env)
                +:+ ":ponzu-dev"] ;;
       ret tt)).
    { apply starts_nothing_bind; [apply starts_nothing_vendor|intros _].
      apply starts_nothing_bind; [apply starts_nothing_Println|intros _].
      apply starts_nothing_ret. }
    apply Hq in Hrun as (rest & -> & Hrest). cbn [log].
    rewrite !execs_app, Hrest. simpl. by rewrite app_nil_r.
Qed.

Lemma compile_result env pwd w :
  compile env pwd w
  = let l1 := log w ++ [Exec (buildCommand pwd)] in
    match run env (buildCommand pwd) (fs w) with
    | StartFail e => (Err (buildFailed e), mkWorld (fs w) l1)
    | Exit (Some e) t => (Err (buildFailed e), mkWorld t l1)
    | Exit None t => (Ok tt, mkWorld t l1)
    end.
Proof.
  unfold compile, buildCommand.
  cbv [bind attempt cmd_Start cmd_Wait exec_Command throw ret].
  destruct (run env _ (fs w)) as [e|[e|] t]; done.
Qed.

Lemma buildPonzuServer_run env args w :
  fault env SysGetwd = None →
  buildPonzuServer env args w
  = match reconcile env (cwd env) w with
    | (Ok _, w1) => compile env (cwd env) w1
    | (Err e, w1) => (Err e, w1)
    end.
Proof.
  intros Hwd. unfold buildPonzuServer, os_Getwd, query, bind.
  by rewrite Hwd.
Qed.

(** C9. Once the copy pass has ended well, a toolchain that cannot be
    started and a toolchain that exits with an error both make
    [buildPonzuServer] return an error whose text holds the phrase
    "build step failed" and the text of the failure; it returns success
    only when the toolchain has exited without error. *)
Theorem build_failure_reported env args w w1 :
  fault env SysGetwd = None →
  reconcile env (cwd env) w = (Ok tt, w1) →
  match run env (buildCommand (cwd env)) (fs w1) with
  | StartFail e | Exit (Some e) _ =>
      ∃ msg, (buildPonzuServer env args w).1 = Err (ErrorString msg) ∧
        contains "build step failed" msg = true ∧
        contains (Error e) msg = true
  | Exit None _ => (buildPonzuServer env args w).1 = Ok tt
  end.
Proof.
  intros Hwd Hrec. rewrite (buildPonzuServer_run _ _ _ Hwd), Hrec.
  rewrite compile_result. cbv zeta.
  assert (Htext : ∀ e, contains "build step failed" (Error (buildFailed e)) = true
                       ∧ contains (Error e) (Error (buildFailed e)) = true).
  { intros e. split.
    - apply (contains_skip "Ponzu "), (contains_app "build step failed").
    - cbn [buildFailed errors_New Error]. do 2 apply contains_skip.
      apply contains_self. }
  destruct (run env (buildCommand (cwd env)) (fs w1)) as [e|[e|] t];
    [| |done]; (eexists; split; [reflexivity|apply Htext]).
Qed.

(** ** [newProjectInDir] *)

Lemma os_Stat_world env name w : (os_Stat env name w).2 = w.
Proof.
  unfold os_Stat, query. destruct (fault env _); [done|].
  by destruct (walk _ _).
Qed.

(** The run of [newProjectInDir], by what is at the path and what is
    answered. *)
Lemma newProjectInDir_run env path w :
  let target := Filepath.Join [GOPATH env; "src"; path] in
  let asked := mkWorld (fs w) (log w ++ [Print overwritePrompt]) in
  newProjectInDir env path w
  = if match (os_Stat env target w).1 with
       | Err err => IsNotExist err
       | Ok _ => false
       end
    then createProjInDir env target w
    else
      match answered (stdin env) with
      | Err err => (Err err, asked)
      | Ok answer =>
          if negative answer
          then (Ok tt, mkWorld (fs w) (log asked ++ [Print ""]))
          else if affirmative answer then
            match os_RemoveAll env target asked with
            | (Ok _, w1) => createProjInDir env target w1
            | (Err err, w1) =>
                (Err (ErrorString
                   ("Failed to overwrite " +:+ target +:+ ". " +:+ nl
                    +:+ Error err)), w1)
            end
          else (Ok tt, mkWorld (fs w) (log asked ++ [Print notRecognized]))
      end.
Proof.
  cbv zeta. unfold newProjectInDir. unfold bind at 1, attempt at 1.
  change (os_Getenv env "GOPATH") with (GOPATH env).
  pose proof (os_Stat_world env (Filepath.Join [GOPATH env; "src"; path]) w) as Hw.
  destruct (os_Stat env _ w) as [st w0]. cbn [fst snd] in *. subst w0.
  destruct (match st with Err err => IsNotExist err | Ok _ => false end);
    cbn [negb]; [done|].
  unfold bind at 1. unfold Println at 1. unfold bind at 1.
  unfold attempt at 1, fmt_Scanf, answered.
  destruct (stdin env) as [token|err].
  - unfold bind at 1, ret at 1. fold (negative token) (affirmative token).
    destruct (negative token); [done|].
    destruct (affirmative token); [|done].
    unfold bind at 1, attempt at 1.
    by destruct (os_RemoveAll env _ _) as [[|] ?].
  - destruct (Error err =? "unexpected newline"); [|done].
    unfold bind at 1, ret at 1. fold (negative "") (affirmative "").
    done.
Qed.




(** ** [buildPonzuServer] *)

Lemma starts_nothing_query {A} env c mkerr (f : node → errno + A) :
  starts_nothing (query env c mkerr f).
Proof.
  intros w r w' H. exists []. rewrite app_nil_r. revert H. unfold query.
  destruct (fault env c); [by intros [= _ <-]|].
  destruct (f (fs w)); by intros [= _ <-].
Qed.

Lemma starts_nothing_copyLoop env src dst ns acc :
  starts_nothing (copyLoop env src dst ns acc).
Proof.
  revert acc. induction ns as [|n ns IH]; intros acc; [apply starts_nothing_ret|].
  cbn [copyLoop]. unfold os_Create, os_Open, io_Copy.
  repeat first [ apply IH
               | apply starts_nothing_bind; [|intros ?]
               | apply starts_nothing_update
               | apply starts_nothing_query
               | apply starts_nothing_ret ].
Qed.

Lemma starts_nothing_reconcile env pwd : starts_nothing (reconcile env pwd).
Proof.
  unfold reconcile, ioutil_ReadDir.
  apply starts_nothing_bind; [apply starts_nothing_query|intros ns].
  apply starts_nothing_bind; [apply starts_nothing_copyLoop|intros acc].
  destruct (1 <? length acc)%nat; [|apply starts_nothing_ret].
  repeat first [ apply starts_nothing_bind; [|intros ?]
               | apply starts_nothing_forM_; intros ?
               | apply starts_nothing_Println
               | apply starts_nothing_throw ].
Qed.

Lemma at_path_Join env d n t :
  Filepath.plain n = true →
  at_path env (Filepath.Join [d; n]) t
  = match at_path env d t with inr x => walk [n] x | inl no => inl no end.
Proof.
  intros Hn. unfold at_path. rewrite entry_Join by by constructor.
  apply walk_app.
Qed.

(** C10. When [buildPonzuServer] returns the conflict error, every file of
    the user content directory has been copied and stays in the vendored
    content directory, and no build was started; the vendored content
    directory differs from what it was before the call whenever a user file
    was not already there with the same contents. *)
Theorem conflict_keeps_copies env args w w' :
  forallb Filepath.plain (userFiles env (cwd env) (fs w)) = true →
  buildPonzuServer env args w = (Err conflictError, w') →
  (∀ n, n ∈ userFiles env (cwd env) (fs w) →
     copied env (cwd env) n (fs w) (fs w')) ∧
  execs (log w') = execs (log w) ∧
  ((∃ n, n ∈ userFiles env (cwd env) (fs w) ∧
      at_path env (Filepath.Join [vendoredContentDir (cwd env); n]) (fs w)
      ≠ at_path env (Filepath.Join [userContentDir (cwd env); n]) (fs w)) →
   at_path env (vendoredContentDir (cwd env)) (fs w')
   ≠ at_path env (vendoredContentDir (cwd env)) (fs w)).
Proof.
  intros Hplain Hrun.
  assert (Hwd : fault env SysGetwd = None).
  { revert Hrun. unfold buildPonzuServer, os_Getwd, query, bind.
    by destruct (fault env SysGetwd). }
  rewrite (buildPonzuServer_run _ _ _ Hwd) in Hrun.
  destruct (reconcile env (cwd env) w) as [[[]|e] w1] eqn:Hrec.
  { rewrite compile_result in Hrun. cbv zeta in Hrun.
    by destruct (run env _ _) as [?|[?|] ?]. }
  injection Hrun as -> ->.
  pose proof (starts_nothing_reconcile _ _ _ _ _ Hrec) as (rest & Hlog & Hrest).
  apply reconcile_copied in Hrec as [(? & ? & ? & [=])|(_ & _ & Hcopied)];
    [|done].
  split_and!; [done| |].
  - by rewrite Hlog, execs_app, Hrest, app_nil_r.
  - intros (n & Hn & Hdiff) Hsame. apply Hdiff.
    assert (Hpn : Filepath.plain n = true).
    { apply forallb_Forall in Hplain. by eapply Forall_forall in Hplain. }
    destruct (Hcopied n Hn) as (data & -> & Hdst).
    rewrite at_path_Join in Hdst |- * by done.
    by rewrite <- Hsame.
Qed.

(** ** The scenarios *)

Import Scenario.

(** C1 (a defect of the code). The user holds only the protected item.go and
    the vendored content directory is empty: the copy pass gathers the name
    and copies the file all the same, since the [continue] after the match
    ends a round of the loop over the protected names, not the round of the
    loop over the files. *)
Theorem protected_file_is_copied :
  let w' := (buildPonzuServer building [] protected_only).2 in
  let vendored := Filepath.Join [vendoredContentDir "/proj"; "item.go"] in
  userFiles building "/proj" (fs protected_only) = ["item.go"] ∧
  conflicts ["item.go"] [] = ["item.go"] ∧
  at_path building vendored (fs protected_only) = inl ENOENT ∧
  at_path building vendored (fs w') = inr (File "package content").
Proof. by vm_compute. Qed.

(** C2 (a defect of the code). The user holds foo.txt and the protected
    item.go: the list of conflicts is not empty, and [buildPonzuServer]
    reports nothing, starts the build and returns success, since it reports
    the conflicts only when there are more than one. *)
Theorem single_conflict_is_built :
  let result := buildPonzuServer building [] one_conflict in
  userFiles building "/proj" (fs one_conflict) = ["foo.txt"; "item.go"] ∧
  conflicts ["foo.txt"; "item.go"] [] = ["item.go"] ∧
  result.1 = Ok tt ∧
  log result.2 = [Exec (buildCommand "/proj")].
Proof. by vm_compute. Qed.

(** The local git cannot be started and the repository on the network
    could be cloned: the error of the start is returned and no second clone
    is started. *)
Lemma local_start_failure_is_final :
  let w1 := (os_MkdirAll local_cannot_start "/go/src/my" empty_gopath).2 in
  let result := createProjInDir local_cannot_start "/go/src/my" empty_gopath in
  dev local_cannot_start = false ∧
  os_MkdirAll local_cannot_start "/go/src/my" empty_gopath = (Ok tt, w1) ∧
  run local_cannot_start
    (localClone local_cannot_start "/go/src/my") (fs w1)
  = StartFail no_fork ∧
  (∃ t, run local_cannot_start (networkClone "/go/src/my") (fs w1)
        = Exit None t) ∧
  result.1 = Err no_fork ∧
  execs (log result.2) = [localClone local_cannot_start "/go/src/my"].
Proof. cbv zeta. split_and!; try by vm_compute. by eexists; vm_compute. Qed.


(** The user holds both protected names with the contents the vendored
    directory holds already: the conflict error is returned, the files have
    been copied, and the tree is what it was before the call. *)
Lemma conflict_without_change :
  let result := buildPonzuServer building [] same_again in
  result.1 = Err conflictError ∧
  userFiles building "/proj" (fs same_again) = ["item.go"; "types.go"] ∧
  copied building "/proj" "item.go" (fs same_again) (fs result.2) ∧
  copied building "/proj" "types.go" (fs same_again) (fs result.2) ∧
  fs result.2 = fs same_again.
Proof.
  cbv zeta. split_and!; try by vm_compute.
  - exists "package content". by vm_compute.
  - exists "package content". by vm_compute.
Qed.

Lemma network_retry_after_local_exit_witness :
  let w1 := (os_MkdirAll network_only "/go/src/my" empty_gopath).2 in
  let result := createProjInDir network_only "/go/src/my" empty_gopath in
  dev network_only = false ∧
  os_MkdirAll network_only "/go/src/my" empty_gopath = (Ok tt, w1) ∧
  result = (result.1, result.2) ∧
  result.1 = Ok tt ∧
  execs (log result.2)
  = [localClone network_only "/go/src/my"; networkClone "/go/src/my"].
Proof.
  cbv zeta.
  assert (Hmk : os_MkdirAll network_only "/go/src/my" empty_gopath
                = (Ok tt, (os_MkdirAll network_only "/go/src/my" empty_gopath).2))
    by (vm_compute; reflexivity).
  pose proof (network_retry_after_local_exit network_only "/go/src/my"
    empty_gopath (os_MkdirAll network_only "/go/src/my" empty_gopath).2
    (createProjInDir network_only "/go/src/my" empty_gopath).1
    (createProjInDir network_only "/go/src/my" empty_gopath).2
    eq_refl Hmk (surjective_pairing _)) as H.
  cbv zeta in H.
  assert (Hlocal : run network_only (localClone network_only "/go/src/my")
                     (fs (os_MkdirAll network_only "/go/src/my" empty_gopath).2)
                   = Exit (Some exit128)
                       (fs (os_MkdirAll network_only "/go/src/my" empty_gopath).2))
    by (vm_compute; reflexivity).
  rewrite Hlocal in H. destruct H as [(rest & Hlog & Hrest) H].
  split_and!; [reflexivity|exact Hmk|apply surjective_pairing| |].
  - edestruct H as [_ Hok]; [vm_compute; reflexivity|].
    eapply Hok. vm_compute. reflexivity.
  - rewrite Hlog, !execs_app, Hrest. reflexivity.
Defined.


Lemma dev_clone_no_fallback_witness :
  let w1 := (os_MkdirAll dev_fork "/go/src/my" empty_gopath).2 in
  let result := createProjInDir dev_fork "/go/src/my" empty_gopath in
  dev dev_fork = true ∧
  os_MkdirAll dev_fork "/go/src/my" empty_gopath = (Ok tt, w1) ∧
  result = (result.1, result.2) ∧
  result.1 = Err exit128 ∧
  execs (log result.2) = execs (log empty_gopath) ++ [devClone dev_fork "/go/src/my"].
Proof.
  cbv zeta.
  assert (Hmk : os_MkdirAll dev_fork "/go/src/my" empty_gopath
                = (Ok tt, (os_MkdirAll dev_fork "/go/src/my" empty_gopath).2))
    by (vm_compute; reflexivity).
  pose proof (dev_clone_no_fallback dev_fork "/go/src/my" empty_gopath
    (os_MkdirAll dev_fork "/go/src/my" empty_gopath).2
    (createProjInDir dev_fork "/go/src/my" empty_gopath).1
    (createProjInDir dev_fork "/go/src/my" empty_gopath).2
    eq_refl Hmk (surjective_pairing _)) as (Hexecs & _ & Hexit).
  split_and!; [reflexivity|exact Hmk|apply surjective_pairing| |].
  - eapply Hexit. vm_compute. reflexivity.
  - exact Hexecs.
Defined.



Lemma build_failure_reported_witness :
  let w1 := (reconcile not_building "/proj" no_conflict).2 in
  fault not_building SysGetwd = None ∧
  reconcile not_building (cwd not_building) no_conflict = (Ok tt, w1) ∧
  ∃ msg,
    (buildPonzuServer not_building [] no_conflict).1 = Err (ErrorString msg) ∧
    contains "build step failed" msg = true ∧
    contains (Error (ErrorString "exec: go: executable file not found in $PATH"))
      msg = true.
Proof.
  cbv zeta.
  assert (Hrun : reconcile not_building (cwd not_building) no_conflict
                 = (Ok tt, (reconcile not_building "/proj" no_conflict).2))
    by (vm_compute; reflexivity).
  split_and!; [reflexivity|exact Hrun|].
  exact (build_failure_reported not_building [] no_conflict _ eq_refl Hrun).
Defined.

Lemma conflict_keeps_copies_witness :
  let w' := (buildPonzuServer building [] two_conflicts).2 in
  forallb Filepath.plain (userFiles building (cwd building) (fs two_conflicts))
  = true ∧
  buildPonzuServer building [] two_conflicts = (Err conflictError, w') ∧
  copied building (cwd building) "item.go" (fs two_conflicts) (fs w') ∧
  at_path building (vendoredContentDir (cwd building)) (fs w')
  ≠ at_path building (vendoredContentDir (cwd building)) (fs two_conflicts).
Proof.
  cbv zeta.
  assert (Hplain : forallb Filepath.plain
                     (userFiles building (cwd building) (fs two_conflicts))
                   = true)
    by (vm_compute; reflexivity).
  assert (Hrun : buildPonzuServer building [] two_conflicts
                 = (Err conflictError,
                    (buildPonzuServer building [] two_conflicts).2))
    by (vm_compute; reflexivity).
  assert (Hfiles : userFiles building (cwd building) (fs two_conflicts)
                   = ["item.go"; "types.go"])
    by (vm_compute; reflexivity).
  pose proof (conflict_keeps_copies building [] two_conflicts _ Hplain Hrun)
    as (Hcopied & _ & Hdiffers).
  rewrite Hfiles in Hcopied, Hdiffers.
  split_and!; [exact Hplain|exact Hrun| |].
  - apply Hcopied. left.
  - apply Hdiffers. exists "item.go". split; [left|].
    vm_compute. discriminate.
Defined.

(** *** Answers to the question of [newProjectInDir] *)

Example answer_YES_overwrites :
  let result := newProjectInDir (answering "YES") "my" occupied in
  result.1 = Ok tt ∧
  log result.2
  = [Print overwritePrompt;
     Exec (localClone (answering "YES") "/go/src/my");
     Print "New ponzu project created at /go/src/my"] ∧
  at_path (answering "YES") "/go/src/my/notes.txt" (fs result.2) = inl ENOENT ∧
  at_path (answering "YES") "/go/src/my/content" (fs result.2) = inr (Dir ∅).
Proof. cbv zeta. split_and!; by vm_compute. Qed.

Example answer_No_keeps :
  newProjectInDir (answering "No") "my" occupied
  = (Ok tt, mkWorld (fs occupied) [Print overwritePrompt; Print ""]).
Proof. by vm_compute. Qed.

Example answer_newline_keeps :
  newProjectInDir bare_newline "my" occupied
  = (Ok tt, mkWorld (fs occupied) [Print overwritePrompt; Print ""]).
Proof. by vm_compute. Qed.

Example answer_maybe_keeps :
  newProjectInDir (answering "maybe") "my" occupied
  = (Ok tt, mkWorld (fs occupied) [Print overwritePrompt; Print notRecognized]).
Proof. by vm_compute. Qed.

Example nothing_there_no_question :
  let result := newProjectInDir (answering "") "my" empty_gopath in
  result.1 = Ok tt ∧
  log result.2
  = [Exec (localClone (answering "") "/go/src/my");
     Print "New ponzu project created at /go/src/my"].
Proof. cbv zeta. split_and!; by vm_compute. Qed.

(** * Further properties *)

(** ** Entries that are left alone *)

Lemma diverges_app q e l : diverges q e → diverges q (e ++ l).
Proof.
  intros (p & a & b & r1 & r2 & ? & -> & ->).
  exists p, a, b, r1, (r2 ++ l). by rewrite app_cons_assoc.
Qed.

Lemma diverges_at (p : list string) a b r1 r2 :
  a ≠ b → diverges (p ++ a :: r1) (p ++ b :: r2).
Proof. intros. by exists p, a, b, r1, r2. Qed.

Lemma walk_put_diverges q e v n : diverges q e → walk q (put e v n) = walk q n.
Proof. intros (p & a & b & r1 & r2 & ? & -> & ->). by apply walk_put_frame. Qed.

Lemma mkdirAll_diverges q e n n' :
  diverges q e → mkdirAll e n = inr n' → walk q n' = walk q n.
Proof.
  intros (p & a & b & r1 & r2 & ? & -> & ->). by apply mkdirAll_frame.
Qed.

Lemma fs_mkdir_diverges q e n n' :
  diverges q e → fs_mkdir e n = inr n' → walk q n' = walk q n.
Proof.
  intros Hq. unfold fs_mkdir. destruct (walk e n); [|done].
  destruct (parent_dir e n); [done|]. intros [= <-].
  by apply walk_put_diverges.
Qed.

Lemma fs_rename_diverges q old new n n' :
  diverges q old → diverges q new →
  fs_rename old new n = inr n' → walk q n' = walk q n.
Proof.
  intros Ho Hn. unfold fs_rename. destruct (walk old n) as [|x]; [done|].
  destruct (parent_dir new n); [done|].
  case_bool_decide; [by intros [= <-]|].
  destruct (is_prefix old new); [done|].
  assert (walk q (put new (Some x) (put old None n)) = walk q n) as Hput
    by by rewrite !walk_put_diverges.
  destruct x, (walk new n) as [|[|m]]; try done; try by intros [= <-].
  case_bool_decide; [by intros [= <-]|done].
Qed.

Lemma fs_removeAll_diverges q e n n' :
  diverges q e → fs_removeAll e n = inr n' → walk q n' = walk q n.
Proof.
  intros Hq. unfold fs_removeAll.
  destruct (walk e n); intros [= <-]; [done|]. by apply walk_put_diverges.
Qed.



Section Keeps.

Context (env : Env) (q : list string).

Lemma keeps_ret {A} (a : A) : keeps q (ret a).
Proof. by intros w r w' [= _ <-]. Qed.


Lemma keeps_bind {A B} (c : M A) (k : A → M B) :
  keeps q c → (∀ a, keeps q (k a)) → keeps q (bind c k).
Proof.
  intros Hc Hk w r w'. unfold bind. destruct (c w) as [[a|e] w1] eqn:H1.
  - intros ->%Hk. by eapply Hc.
  - intros [= _ <-]. by eapply Hc.
Qed.

Lemma keeps_attempt {A} (c : M A) : keeps q c → keeps q (attempt c).
Proof.
  intros Hc w r w'. unfold attempt. destruct (c w) as [r1 w1] eqn:H1.
  intros [= _ <-]. by eapply Hc.
Qed.


Lemma keeps_forM_ {A} (l : list A) body :
  (∀ x, x ∈ l → keeps q (body x)) → keeps q (forM_ l body).
Proof.
  induction l as [|x l IH]; intros Hbody; [apply keeps_ret|].
  apply keeps_bind; [apply Hbody; by left|intros _].
  apply IH. intros y ?. apply Hbody. by right.
Qed.


Lemma keeps_update c mkerr f :
  (∀ n n', f n = inr n' → walk q n' = walk q n) →
  keeps q (update env c mkerr f).
Proof.
  intros Hf w r w'. unfold update.
  destruct (fault env c); [by intros [= _ <-]|].
  destruct (f (fs w)) as [|t] eqn:Ht; intros [= _ <-]; [done|].
  by apply Hf.
Qed.

Lemma keeps_vendor path :
  diverges q (entry env (vendorPath path)) →
  (∀ d, d ∈ corePackages → diverges q (entry env path ++ [d])) →
  keeps q (vendorCorePackages env path).
Proof.
  intros Hv Hd. unfold vendorCorePackages. fold (vendorPath path).
  assert (He : ∀ p d, d ∈ corePackages →
            entry env (Filepath.Join [p; d]) = entry env p ++ [d]).
  { intros p d Hin. apply entry_Join. constructor; [|done].
    unfold corePackages in Hin.
    rewrite !elem_of_cons, elem_of_nil in Hin. by destruct Hin as [->|[->|[->|[]]]]. }
  apply keeps_bind; [|intros _; apply keeps_bind; [|intros _; apply keeps_bind]].
  - apply keeps_update. intros n n'. by apply mkdirAll_diverges.
  - apply keeps_forM_. intros d Hin. apply keeps_update. intros n n'.
    rewrite !He by done. apply fs_rename_diverges; [by apply Hd|].
    by apply diverges_app.
  - apply keeps_update. intros n n'. rewrite He by by left.
    apply fs_mkdir_diverges, Hd. by left.
  - intros _. apply keeps_ret.
Qed.

End Keeps.

Lemma entry_vendorPath env path :
  entry env (vendorPath path)
  = entry env path
    ++ "cmd" :: ["ponzu"; "vendor"; "github.com"; "bosssauce"; "ponzu"].
Proof. apply entry_Join. by repeat constructor. Qed.

(** X1. Whatever its result, [vendorCorePackages] leaves every entry of the
    project root but content, management, system and cmd as it is, and every
    entry of cmd/ponzu but vendor: the sources the build compiles and the
    .git directory are not touched. *)
Theorem vendor_keeps_the_rest env path w r w' :
  vendorCorePackages env path w = (r, w') →
  (∀ d rest, d ∉ "cmd" :: corePackages →
     walk (entry env path ++ d :: rest) (fs w')
     = walk (entry env path ++ d :: rest) (fs w)) ∧
  (∀ d rest, d ≠ "vendor" →
     walk (entry env path ++ "cmd" :: "ponzu" :: d :: rest) (fs w')
     = walk (entry env path ++ "cmd" :: "ponzu" :: d :: rest) (fs w)).
Proof.
  intros Hrun. split.
  - intros d rest Hd. revert Hrun. apply keeps_vendor.
    + rewrite entry_vendorPath. apply diverges_at.
      intros ->. apply Hd. by left.
    + intros d' Hd'. apply diverges_at.
      intros ->. apply Hd. by right.
  - intros d rest Hd. revert Hrun. apply keeps_vendor.
    + rewrite entry_vendorPath.
      exists (entry env path ++ ["cmd"; "ponzu"]), d, "vendor", rest,
        ["github.com"; "bosssauce"; "ponzu"].
      by rewrite <- !app_assoc.
    + intros d' Hd'. apply diverges_at. unfold corePackages in Hd'.
      rewrite !elem_of_cons, elem_of_nil in Hd'.
      by destruct Hd' as [->|[->|[->|[]]]].
Qed.

(** ** [vendorCorePackages], step by step *)

Lemma bind_Err {A B} (c : M A) (k : A → M B) w e w' :
  bind c k w = (Err e, w') →
  c w = (Err e, w') ∨ ∃ a w1, c w = (Ok a, w1) ∧ k a w1 = (Err e, w').
Proof.
  unfold bind. destruct (c w) as [[a|e'] w1]; [|intros [= <- <-]; by left].
  intros H. right. by exists a, w1.
Qed.

Lemma update_Err env c mkerr f w e w' :
  update env c mkerr f w = (Err e, w') → w' = w.
Proof.
  unfold update. destruct (fault env c); [by intros [= _ <-]|].
  destruct (f (fs w)); by intros [= _ <-].
Qed.

Lemma elem_of_corePackages d :
  d ∈ corePackages ↔ d = "content" ∨ d = "management" ∨ d = "system".
Proof.
  unfold corePackages. rewrite !elem_of_cons, elem_of_nil. tauto.
Qed.

Lemma entry_package env p d :
  d ∈ corePackages → entry env (Filepath.Join [p; d]) = entry env p ++ [d].
Proof.
  intros Hd. apply entry_Join. constructor; [|done].
  by apply elem_of_corePackages in Hd as [->|[->| ->]].
Qed.

(** The tree after a run of [vendorCorePackages] that ended well. *)
Lemma vendor_layout env path w w' :
  vendorCorePackages env path w = (Ok tt, w') →
  log w' = log w ∧
  (∀ d, d ∈ corePackages →
     ∃ x, walk (entry env path ++ [d]) (fs w) = inr x ∧
          walk (entry env (vendorPath path) ++ [d]) (fs w') = inr x) ∧
  walk (entry env path ++ ["management"]) (fs w') = inl ENOENT ∧
  walk (entry env path ++ ["system"]) (fs w') = inl ENOENT ∧
  walk (entry env path ++ ["content"]) (fs w') = inr (Dir ∅).
Proof.
  unfold vendorCorePackages. fold (vendorPath path). intros H.
  inv_bind H as w1 Hv. apply update_Ok in Hv as [Hv Hl1].
  inv_bind H as w4 Hl. cbn [forM_] in Hl.
  inv_bind Hl as w2 Hc. apply update_Ok in Hc as [Hc Hl2].
  inv_bind Hl as w3 Hm. apply update_Ok in Hm as [Hm Hl3].
  inv_bind Hl as w4' Hs. apply update_Ok in Hs as [Hs Hl4].
  injection Hl as _ <-.
  inv_bind H as w5 Hn. apply update_Ok in Hn as [Hn Hl5]. injection H as <-.
  rewrite !entry_package in * by (apply elem_of_corePackages; auto).
  rewrite entry_vendorPath in *.
  set (root := entry env path) in *.
  set (rest := ["ponzu"; "vendor"; "github.com"; "bosssauce"; "ponzu"]) in *.
  apply rename_below_cmd in Hc as (xc & Hc0 & Hc1 & _ & Hcr & Hcv); [|done].
  apply rename_below_cmd in Hm as (xm & Hm0 & Hm1 & Hm2 & Hmr & Hmv); [|done].
  apply rename_below_cmd in Hs as (xs & Hs0 & Hs1 & Hs2 & Hsr & Hsv); [|done].
  apply fs_mkdir_made in Hn as (mr & Hroot & Hn).
  assert (Hv' : ∀ d, walk ((root ++ "cmd" :: rest) ++ [d]) (fs w5)
                    = walk ((root ++ "cmd" :: rest) ++ [d]) (fs w4')).
  { intros d. rewrite Hn, (app_cons_assoc root). by rewrite walk_put_frame. }
  assert (Hf : ∀ d, d ≠ "cmd" →
            walk (root ++ [d]) (fs w1) = walk (root ++ [d]) (fs w)).
  { intros d Hd. by eapply mkdirAll_frame. }
  split_and!.
  - congruence.
  - intros d [->|[->| ->]]%elem_of_corePackages; rewrite Hv'.
    + exists xc. rewrite <- Hf by done. split; [done|].
      by rewrite Hsv, Hmv.
    + exists xm. rewrite <- Hf, <- Hcr by done. split; [done|]. by rewrite Hsv.
    + exists xs. by rewrite <- Hf, <- Hcr, <- Hmr.
  - rewrite Hn, walk_put_frame by done. by rewrite Hsr.
  - rewrite Hn, walk_put_frame by done. done.
  - rewrite Hn. by erewrite walk_put_same.
Qed.

(** X2. [vendorCorePackages] does not roll back, and loses nothing: when it
    returns an error, the packages before the step that failed are in the
    vendor directory as they were at the project root, where they are no
    more; the others are at the project root as before; no user content
    directory has been put in the place of the one moved, and nothing is
    printed. *)
Theorem vendor_failure_loses_nothing env path w e w' :
  vendorCorePackages env path w = (Err e, w') →
  log w' = log w ∧
  ∃ k,
    (∀ d, d ∈ take k corePackages →
       at_path env (Filepath.Join [path; d]) (fs w') = inl ENOENT ∧
       ∃ x, at_path env (Filepath.Join [path; d]) (fs w) = inr x ∧
            at_path env (Filepath.Join [vendorPath path; d]) (fs w') = inr x) ∧
    (∀ d, d ∈ drop k corePackages →
       at_path env (Filepath.Join [path; d]) (fs w')
       = at_path env (Filepath.Join [path; d]) (fs w)).
Proof.
  unfold vendorCorePackages, at_path. fold (vendorPath path). intros H.
  assert (He : ∀ p d, d ∈ corePackages →
            walk (entry env (Filepath.Join [p; d])) = walk (entry env p ++ [d])).
  { intros p d Hd. by rewrite entry_package. }
  cut (log w' = log w ∧
       ∃ k,
         (∀ d, d ∈ take k corePackages →
            walk (entry env path ++ [d]) (fs w') = inl ENOENT ∧
            ∃ x, walk (entry env path ++ [d]) (fs w) = inr x ∧
                 walk (entry env (vendorPath path) ++ [d]) (fs w') = inr x) ∧
         (∀ d, d ∈ drop k corePackages →
            walk (entry env path ++ [d]) (fs w')
            = walk (entry env path ++ [d]) (fs w))).
  { intros [Hlog (k & Hmoved & Hkept)]. split; [done|]. exists k. split.
    - intros d Hd. rewrite !He by by eapply subseteq_take. auto.
    - intros d Hd. rewrite !He by by eapply subseteq_drop. auto. }
  rewrite entry_vendorPath. clear He.
  set (rest := ["ponzu"; "vendor"; "github.com"; "bosssauce"; "ponzu"]) in *.
  assert (moved : ∀ d n n', d ∈ corePackages →
            fs_rename (entry env (Filepath.Join [path; d]))
              (entry env (Filepath.Join [vendorPath path; d])) n = inr n' →
            ∃ x, walk (entry env path ++ [d]) n = inr x ∧
              walk ((entry env path ++ "cmd" :: rest) ++ [d]) n' = inr x ∧
              walk (entry env path ++ [d]) n' = inl ENOENT ∧
              (∀ d' r, d' ≠ d → d' ≠ "cmd" →
                 walk (entry env path ++ d' :: r) n'
                 = walk (entry env path ++ d' :: r) n) ∧
              (∀ d' r, d' ≠ d →
                 walk ((entry env path ++ "cmd" :: rest) ++ d' :: r) n'
                 = walk ((entry env path ++ "cmd" :: rest) ++ d' :: r) n)).
  { intros d n n' Hd. rewrite !entry_package, entry_vendorPath by done.
    apply rename_below_cmd.
    by apply elem_of_corePackages in Hd as [->|[->| ->]]. }
  apply bind_Err in H as [H|(? & w1 & Hv & H)].
  { apply update_Err in H as ->. split; [done|]. exists 0%nat.
    split; [by intros d []%elem_of_nil|done]. }
  apply update_Ok in Hv as [Hv Hl1]. rewrite entry_vendorPath in Hv.
  assert (Hf : ∀ d, d ≠ "cmd" →
            walk (entry env path ++ [d]) (fs w1)
            = walk (entry env path ++ [d]) (fs w)).
  { intros d Hd. by eapply mkdirAll_frame. }
  apply bind_Err in H as [H|(? & w4 & Hl & H)]; cbn [forM_] in *.
  - apply bind_Err in H as [H|(? & w2 & Hc & H)].
    { apply update_Err in H as ->. split; [done|]. exists 0%nat.
      split; [by intros d []%elem_of_nil|].
      intros d [->|[->| ->]]%elem_of_corePackages; by apply Hf. }
    apply update_Ok in Hc as [Hc Hl2].
    apply moved in Hc as (xc & Hc0 & Hc1 & Hc2 & Hcr & Hcv); [|apply elem_of_corePackages; auto].
    apply bind_Err in H as [H|(? & w3 & Hm & H)].
    { apply update_Err in H as ->. split; [congruence|]. exists 1%nat.
      split.
      - intros d ->%list_elem_of_singleton. split; [done|].
        exists xc. by rewrite <- Hf.
      - intros d [->| ->%list_elem_of_singleton]%elem_of_cons;
          by rewrite Hcr, Hf. }
    apply update_Ok in Hm as [Hm Hl3].
    apply moved in Hm as (xm & Hm0 & Hm1 & Hm2 & Hmr & Hmv); [|apply elem_of_corePackages; auto].
    apply bind_Err in H as [H|(? & w4 & Hs & H)]; [|done].
    apply update_Err in H as ->. split; [congruence|]. exists 2%nat.
    split.
    + intros d [->| ->%list_elem_of_singleton]%elem_of_cons.
      * split; [by rewrite Hmr|]. exists xc. rewrite <- Hf by done.
        split; [done|]. by rewrite Hmv.
      * split; [done|]. exists xm. by rewrite <- Hf, <- Hcr.
    + intros d ->%list_elem_of_singleton. by rewrite Hmr, Hcr, Hf.
  - inv_bind Hl as w2 Hc. apply update_Ok in Hc as [Hc Hl2].
    apply moved in Hc as (xc & Hc0 & Hc1 & Hc2 & Hcr & Hcv); [|apply elem_of_corePackages; auto].
    inv_bind Hl as w3 Hm. apply update_Ok in Hm as [Hm Hl3].
    apply moved in Hm as (xm & Hm0 & Hm1 & Hm2 & Hmr & Hmv); [|apply elem_of_corePackages; auto].
    inv_bind Hl as w4' Hs. apply update_Ok in Hs as [Hs Hl4].
    apply moved in Hs as (xs & Hs0 & Hs1 & Hs2 & Hsr & Hsv); [|apply elem_of_corePackages; auto].
    injection Hl as _ <-.
    apply bind_Err in H as [H|(? & w5 & Hn & H)]; [|done].
    apply update_Err in H as ->. split; [congruence|]. exists 3%nat.
    split; [|by intros d []%elem_of_nil].
    intros d [->|[->| ->]]%elem_of_corePackages.
    + split; [by rewrite Hsr, Hmr|]. exists xc. rewrite <- Hf by done.
      split; [done|]. by rewrite Hsv, Hmv.
    + split; [by rewrite Hsr|]. exists xm. rewrite <- Hf, <- Hcr by done.
      split; [done|]. by rewrite Hsv.
    + split; [done|]. exists xs. by rewrite <- Hf, <- Hcr, <- Hmr.
Qed.

(** ** The project that [createProjInDir] leaves *)

Lemma createProjInDir_mkdir_fail env path w e w1 :
  os_MkdirAll env path w = (Err e, w1) →
  createProjInDir env path w = (Err e, w).
Proof.
  intros Hmk. unfold createProjInDir. unfold bind at 1. rewrite Hmk.
  by apply update_Err in Hmk as ->.
Qed.

Lemma entry_gitDir env path : entry env (gitDir path) = entry env path ++ [".git"].
Proof. apply entry_Join. by repeat constructor. Qed.

(** The three ways a run of [finishProject] ends. *)
Lemma finishProject_run env path w :
  finishProject env path w
  = match vendorCorePackages env path w with
    | (Err e, w2) => (Err e, w2)
    | (Ok _, w2) =>
        match os_RemoveAll env (gitDir path) w2 with
        | (Ok _, w3) =>
            (Ok tt, mkWorld (fs w3) (log w3 ++ [Print (createdNotice path)]))
        | (Err _, w3) =>
            (Ok tt,
             mkWorld (fs w3)
               (log w3 ++ [Print gitNotice; Print (createdNotice path)]))
        end
    end.
Proof.
  unfold finishProject. fold (gitDir path). unfold bind at 1.
  destruct (vendorCorePackages env path w) as [[u|e] w2]; [|done].
  cbv [bind attempt Println ret]. cbn [String.concat].
  destruct (os_RemoveAll env (gitDir path) w2) as [[u'|e] w3]; cbn [fs log];
    [done|]. by rewrite <- app_assoc.
Qed.

Lemma walk_sibling_missing q c c' n x :
  walk (q ++ [c]) n = inr x →
  (∃ y, walk (q ++ [c']) n = inr y) ∨ walk (q ++ [c']) n = inl ENOENT.
Proof.
  intros [m Hm]%walk_snoc_parent. rewrite walk_app, Hm. simpl.
  destruct (m !! c'); eauto.
Qed.

Lemma removeAll_entry q c n n' x :
  walk (q ++ [x]) n = inr c →
  fs_removeAll (q ++ [".git"]) n = inr n' →
  walk (q ++ [".git"]) n' = inl ENOENT.
Proof.
  intros Hx. unfold fs_removeAll.
  destruct (walk_sibling_missing _ _ ".git" _ _ Hx) as [[y Hy]| Hy]; rewrite Hy.
  - intros [= <-]. destruct (walk_snoc_parent _ _ _ _ Hx) as [m Hm].
    by erewrite walk_put_same.
  - by intros [= <-].
Qed.

(** What a run of [finishProject] that ended well leaves. *)
Lemma finishProject_layout env path w w' :
  finishProject env path w = (Ok tt, w') →
  walk (entry env path ++ ["content"]) (fs w') = inr (Dir ∅) ∧
  walk (entry env path ++ ["management"]) (fs w') = inl ENOENT ∧
  walk (entry env path ++ ["system"]) (fs w') = inl ENOENT ∧
  (∀ d, d ∈ corePackages →
     ∃ x, walk (entry env path ++ [d]) (fs w) = inr x ∧
          walk (entry env (vendorPath path) ++ [d]) (fs w') = inr x) ∧
  (fault env (SysRemoveAll (gitDir path)) = None →
   walk (entry env path ++ [".git"]) (fs w') = inl ENOENT) ∧
  ∃ lines, log w' = log w ++ lines ++ [Print (createdNotice path)].
Proof.
  rewrite finishProject_run.
  destruct (vendorCorePackages env path w) as [[[]|e] w2] eqn:Hv; [|done].
  apply vendor_layout in Hv as (Hlog & Hmoved & Hm & Hs & Hc).
  destruct (os_RemoveAll env (gitDir path) w2) as [[u|e] w3] eqn:Hrm.
  - intros [= <-]. cbn [fs log]. apply update_Ok in Hrm as [Hrm Hl].
    rewrite entry_gitDir in Hrm.
    assert (Hkeep : ∀ q, diverges q (entry env path ++ [".git"]) →
              walk q (fs w3) = walk q (fs w2)).
    { intros q Hq. by eapply fs_removeAll_diverges. }
    split_and!.
    + rewrite Hkeep; [done|]. by apply diverges_at.
    + rewrite Hkeep; [done|]. by apply diverges_at.
    + rewrite Hkeep; [done|]. by apply diverges_at.
    + intros d Hd. destruct (Hmoved d Hd) as (x & H1 & H2). exists x.
      split; [done|]. rewrite Hkeep; [done|].
      rewrite entry_vendorPath, app_cons_assoc. by apply diverges_at.
    + intros _. by eapply removeAll_entry.
    + exists []. by rewrite Hl, Hlog.
  - intros [= <-]. cbn [fs log]. apply update_Err in Hrm as Hw. subst w3.
    split_and!; [done..| |].
    + intros Hf. revert Hrm. unfold os_RemoveAll, update. rewrite Hf.
      unfold fs_removeAll. by destruct (walk (entry env (gitDir path)) _).
    + exists [Print gitNotice]. by rewrite Hlog.
Qed.

(** A run of [createProjInDir] without [dev] that ended well has finished
    the project on the tree of a clone that ended well. *)
Lemma createProjInDir_finished env path w w' :
  dev env = false →
  createProjInDir env path w = (Ok tt, w') →
  ∃ w1 clone t0 t lines,
    os_MkdirAll env path w = (Ok tt, w1) ∧
    (clone = localClone env path ∧ t0 = fs w1 ∨
     clone = networkClone path ∧
     ∃ e, run env (localClone env path) (fs w1) = Exit (Some e) t0) ∧
    run env clone t0 = Exit None t ∧
    finishProject env path (mkWorld t (log w ++ lines)) = (Ok tt, w').
Proof.
  intros Hdev.
  destruct (os_MkdirAll env path w) as [[[]|e] w1] eqn:Hmk;
    [|by rewrite (createProjInDir_mkdir_fail _ _ _ _ _ Hmk)].
  rewrite (createProjInDir_clone _ _ _ _ Hdev Hmk). cbv zeta.
  destruct (run env (localClone env path) (fs w1)) as [e|[e|] t] eqn:Hlocal;
    [done| |].
  - destruct (run env (networkClone path) t) as [e2|[e2|] t'] eqn:Hnet;
      [done..|].
    rewrite <- app_assoc. intros Hfin.
    exists w1, (networkClone path), t, t'. eexists.
    split_and!; [done|right; eauto|done|exact Hfin].
  - intros Hfin. exists w1, (localClone env path), (fs w1), t. eexists.
    split_and!; [done|by left|done|exact Hfin].
Qed.

(** X3. The project that [createProjInDir] leaves without [dev] when it
    returns no error: one of the two clones has ended well, the local one or,
    after the local one had ended badly, the one over the network; content,
    management and system of the tree it left are in the vendor directory;
    the project root holds no management and no system, and an empty content
    directory; the .git directory is gone unless its removal failed for a
    reason outside the tree; the last line printed names the path. *)
Theorem created_project_layout env path w w' :
  dev env = false →
  createProjInDir env path w = (Ok tt, w') →
  (∃ w1 clone t0 t,
     os_MkdirAll env path w = (Ok tt, w1) ∧
     (clone = localClone env path ∧ t0 = fs w1 ∨
      clone = networkClone path ∧
      ∃ e, run env (localClone env path) (fs w1) = Exit (Some e) t0) ∧
     run env clone t0 = Exit None t ∧
     ∀ d, d ∈ corePackages →
       ∃ x, at_path env (Filepath.Join [path; d]) t = inr x ∧
            at_path env (Filepath.Join [vendorPath path; d]) (fs w') = inr x) ∧
  at_path env (Filepath.Join [path; "content"]) (fs w') = inr (Dir ∅) ∧
  at_path env (Filepath.Join [path; "management"]) (fs w') = inl ENOENT ∧
  at_path env (Filepath.Join [path; "system"]) (fs w') = inl ENOENT ∧
  (fault env (SysRemoveAll (gitDir path)) = None →
   at_path env (gitDir path) (fs w') = inl ENOENT) ∧
  ∃ lines, log w' = log w ++ lines ++ [Print (createdNotice path)].
Proof.
  intros Hdev (w1 & clone & t0 & t & lines & Hmk & Hclone & Hrun & Hfin)%createProjInDir_finished;
    [|done].
  apply finishProject_layout in Hfin
    as (Hc & Hm & Hs & Hmoved & Hgit & lines' & Hlog).
  unfold at_path.
  rewrite entry_gitDir, !(entry_package env path)
    by (apply elem_of_corePackages; auto).
  split_and!; [|done..|].
  - exists w1, clone, t0, t. split_and!; [done..|].
    intros d Hd. rewrite !entry_package by done. by apply Hmoved.
  - exists (lines ++ lines'). cbn [log] in Hlog.
    by rewrite Hlog, <- !app_assoc.
Qed.


(** A run of [createProjInDir] with [dev] that ended well has vendored the
    packages of the tree the clone left. *)
Lemma createProjInDir_dev_finished env path w w' :
  dev env = true →
  createProjInDir env path w = (Ok tt, w') →
  ∃ w1 t w2,
    os_MkdirAll env path w = (Ok tt, w1) ∧
    run env (devClone env path) (fs w1) = Exit None t ∧
    vendorCorePackages env path
      (mkWorld t (log w ++ [Exec (devClone env path)])) = (Ok tt, w2) ∧
    w' = mkWorld (fs w2) (log w2 ++ [Print (devNotice env)]).
Proof.
  intros Hdev.
  destruct (os_MkdirAll env path w) as [[[]|e] w1] eqn:Hmk;
    [|by rewrite (createProjInDir_mkdir_fail _ _ _ _ _ Hmk)].
  rewrite (createProjInDir_dev _ _ _ _ Hdev Hmk). cbv zeta.
  destruct (run env (devClone env path) (fs w1)) as [e|[e|] t] eqn:Hrun;
    [done..|].
  unfold bind at 1.
  destruct (vendorCorePackages env path _) as [[[]|e] w2] eqn:Hv; [|done].
  cbv [bind Println ret]. cbn [String.concat]. intros [= <-].
  by exists w1, t, w2.
Qed.

(** X5. With [dev] the project is left with its .git directory: when
    [createProjInDir] returns no error, the one clone has ended well, the
    packages of the tree it left are vendored, everything below .git is as
    the clone left it, and the only line printed names the source of the
    clone. *)
Theorem dev_project_keeps_git env path w w' :
  dev env = true →
  createProjInDir env path w = (Ok tt, w') →
  ∃ w1 t,
    os_MkdirAll env path w = (Ok tt, w1) ∧
    run env (devClone env path) (fs w1) = Exit None t ∧
    at_path env (gitDir path) (fs w') = at_path env (gitDir path) t ∧
    at_path env (Filepath.Join [path; "content"]) (fs w') = inr (Dir ∅) ∧
    (∀ d, d ∈ corePackages →
       ∃ x, at_path env (Filepath.Join [path; d]) t = inr x ∧
            at_path env (Filepath.Join [vendorPath path; d]) (fs w') = inr x) ∧
    log w' = log w ++ [Exec (devClone env path); Print (devNotice env)].
Proof.
  intros Hdev (w1 & t & w2 & Hmk & Hrun & Hv & ->)%createProjInDir_dev_finished;
    [|done].
  cbn [fs log]. exists w1, t. split_and!; [done..| | | |].
  - unfold at_path. rewrite entry_gitDir.
    revert Hv. apply keeps_vendor.
    + rewrite entry_vendorPath. by apply diverges_at.
    + intros d [->|[->| ->]]%elem_of_corePackages; by apply diverges_at.
  - unfold at_path. rewrite entry_package by (apply elem_of_corePackages; auto).
    by apply vendor_layout in Hv as (_ & _ & _ & _ & ?).
  - intros d Hd. unfold at_path. rewrite !entry_package by done.
    apply vendor_layout in Hv as (_ & Hmoved & _). by apply Hmoved.
  - apply vendor_layout in Hv as (-> & _). cbn [log].
    by rewrite <- app_assoc.
Qed.

(** ** The subprocesses of the bootstrap *)

Lemma starts_nothing_execs {A} (c : M A) w r w' :
  starts_nothing c → c w = (r, w') → execs (log w') = execs (log w).
Proof.
  intros Hc (rest & -> & Hrest)%Hc. by rewrite execs_app, Hrest, app_nil_r.
Qed.

Lemma createProjInDir_commands env path w r w' :
  createProjInDir env path w = (r, w') →
  ∃ started,
    execs (log w') = execs (log w) ++ started ∧ cloneAttempts env path started.
Proof.
  unfold cloneAttempts.
  destruct (os_MkdirAll env path w) as [[[]|e] w1] eqn:Hmk.
  2:{ rewrite (createProjInDir_mkdir_fail _ _ _ _ _ Hmk). intros [= _ <-].
      exists []. rewrite app_nil_r. split; [done|]. destruct (dev env); auto. }
  destruct (dev env) eqn:Hdev.
  - rewrite (createProjInDir_dev _ _ _ _ Hdev Hmk). cbv zeta.
    intros H. exists [devClone env path]. split; [|by right].
    destruct (run env (devClone env path) (fs w1)) as [e|[e|] t].
    + injection H as _ <-. cbn [log]. by rewrite execs_app.
    + injection H as _ <-. cbn [log]. by rewrite execs_app.
    + apply starts_nothing_execs in H.
      * cbn [log] in H. by rewrite H, execs_app.
      * apply starts_nothing_bind; [apply starts_nothing_vendor|intros _].
        apply starts_nothing_bind; [apply starts_nothing_Println|intros _].
        apply starts_nothing_ret.
  - rewrite (createProjInDir_clone _ _ _ _ Hdev Hmk). cbv zeta.
    destruct (run env (localClone env path) (fs w1)) as [e|[e|] t].
    + intros [= _ <-]. cbn [log]. exists [localClone env path].
      rewrite execs_app. auto.
    + destruct (run env (networkClone path) t) as [e2|[e2|] t'].
      * intros [= _ <-]. cbn [log].
        exists [localClone env path; networkClone path].
        rewrite !execs_app. cbn. rewrite app_nil_r, <- app_assoc. auto.
      * intros [= _ <-]. cbn [log].
        exists [localClone env path; networkClone path].
        rewrite !execs_app. cbn. rewrite app_nil_r, <- app_assoc. auto.
      * intros H%(starts_nothing_execs _ _ _ _ (starts_nothing_finish _ _)).
        cbn [log] in H. exists [localClone env path; networkClone path].
        rewrite H, !execs_app. cbn. rewrite <- app_assoc. auto.
    + intros H%(starts_nothing_execs _ _ _ _ (starts_nothing_finish _ _)).
      cbn [log] in H. exists [localClone env path].
      rewrite H, execs_app. auto.
Qed.

Lemma Join_components g names :
  names ≠ [] →
  Filepath.Join [g; "src"; String.concat "/" names]
  = Filepath.Join (g :: "src" :: names).
Proof.
  intros Hn. destruct names as [|c names]; [done|].
  unfold Filepath.Join. by destruct (g =? "").
Qed.

(** X6. [newProjectInDir] works below GOPATH/src and starts nothing but
    clones into the path there: whatever its result, the subprocesses it has
    started are none, or the one clone of [dev], or the local clone, or the
    local clone and then the clone over the network, each with the path
    joined to GOPATH/src as its destination; and for a path made of
    directory names this destination is the entry of these names below the
    entry src of GOPATH. *)
Theorem newProjectInDir_only_clones env path w r w' :
  newProjectInDir env path w = (r, w') →
  (∃ started,
     execs (log w') = execs (log w) ++ started ∧
     cloneAttempts env (Filepath.Join [GOPATH env; "src"; path]) started) ∧
  ∀ names,
    names ≠ [] → Forall (λ c, Filepath.plain c = true) names →
    path = String.concat "/" names →
    entry env (Filepath.Join [GOPATH env; "src"; path])
    = entry env (GOPATH env) ++ "src" :: names.
Proof.
  intros Hrun. split.
  - pose proof (newProjectInDir_run env path w) as Heq. cbv zeta in Heq.
    rewrite Heq in Hrun. clear Heq.
    set (target := Filepath.Join [GOPATH env; "src"; path]) in *.
    assert (Hnone : ∀ l, w' = mkWorld (fs w) ((log w ++ [Print overwritePrompt]) ++ l) →
              execs l = [] →
              ∃ started, execs (log w') = execs (log w) ++ started ∧
                cloneAttempts env target started).
    { intros l -> Hl. exists []. cbn [log].
      rewrite !execs_app, Hl. cbn. rewrite !app_nil_r. split; [done|].
      unfold cloneAttempts. destruct (dev env); auto. }
    destruct (match (os_Stat env target w).1 with
              | Err err => IsNotExist err
              | Ok _ => false
              end).
    { by apply createProjInDir_commands in Hrun. }
    destruct (answered (stdin env)) as [answer|err].
    2:{ injection Hrun as _ <-. apply (Hnone []); [|done].
        by rewrite app_nil_r. }
    destruct (negative answer).
    { injection Hrun as _ <-. by apply (Hnone [Print ""]). }
    destruct (affirmative answer).
    2:{ injection Hrun as _ <-. by apply (Hnone [Print notRecognized]). }
    destruct (os_RemoveAll env target _) as [[u|err] w1] eqn:Hrm.
    + apply update_Ok in Hrm as [_ Hlog]. cbn [log] in Hlog.
      apply createProjInDir_commands in Hrun as (started & Hexecs & Hstarted).
      exists started. split; [|done].
      rewrite Hexecs, Hlog, execs_app. cbn. by rewrite app_nil_r.
    + apply update_Err in Hrm as ->. injection Hrun as _ <-.
      apply (Hnone []); [|done]. by rewrite app_nil_r.
  - intros names Hne Hplain ->. rewrite Join_components by done.
    apply entry_Join. by constructor.
Qed.


(** ** What the copy pass leaves alone *)

Section Untouched.

Context (env : Env) (pwd : string).
Abbreviation src := (userContentDir pwd).
Abbreviation dst := (vendoredContentDir pwd).
Abbreviation S := (userContentEntry env pwd).
Abbreviation D := (vendoredContentEntry env pwd).






(** ** A directory among the user files *)

Lemma copyRound_dir n w m :
  Filepath.plain n = true →
  walk (S ++ [n]) (fs w) = inr (Dir m) →
  ∃ e w', copyRound env pwd n w = (Err e, w').
Proof.
  intros Hn Hdir.
  unfold copyRound, os_Create, os_Open, io_Copy, bind, update, query, ret.
  cbn [f_name f_entry]. rewrite entry_dst_file, entry_src_file by done.
  destruct (fault env (SysCreate _)); [by eauto|].
  destruct (fs_create (D ++ [n]) (fs w)) as [|t1] eqn:Hc; [by eauto|].
  apply fs_create_made in Hc as [_ ->]. cbn [fs log].
  rewrite walk_S_put_D, Hdir.
  destruct (fault env (SysOpen _)); [by eauto|].
  cbn [f_name f_entry fs log].
  destruct (fault env (SysRead _)); [by eauto|].
  unfold fs_read. rewrite walk_S_put_D, Hdir. by eauto.
Qed.

Lemma copyLoop_dir ns acc w n m :
  Forall (λ n, Filepath.plain n = true) ns →
  n ∈ ns → walk (S ++ [n]) (fs w) = inr (Dir m) →
  ∃ e w', copyLoop env src dst ns acc w = (Err e, w').
Proof.
  intros Hns. revert acc w.
  induction Hns as [|n' ns Hn' Hns IH]; intros acc w Hin Hdir.
  - by apply elem_of_nil in Hin.
  - rewrite copyLoop_cons.
    destruct (copyRound env pwd n' w) as [[u|e] w1] eqn:Hround; [|by eauto].
    apply elem_of_cons in Hin as [->|Hin].
    + destruct (copyRound_dir _ _ _ Hn' Hdir) as (e & w2 & Hfail). congruence.
    + apply IH; [done|].
      apply copyRound_Ok in Hround as (data & md & _ & _ & Hfs & _); [|done].
      by rewrite Hfs, walk_S_put_D.
Qed.

End Untouched.

(** X9. A directory in the user content directory stops the build: the
    copy pass copies regular files only, so [buildPonzuServer] returns an
    error, which is not the conflict error, and starts no build. *)
Theorem subdirectory_stops_the_build env args w n m :
  forallb Filepath.plain (userFiles env (cwd env) (fs w)) = true →
  walk (userContentEntry env (cwd env) ++ [n]) (fs w) = inr (Dir m) →
  ∃ e w',
    buildPonzuServer env args w = (Err e, w') ∧
    e ≠ conflictError ∧
    execs (log w') = execs (log w).
Proof.
  intros Hplain%forallb_Forall Hdir.
  unfold buildPonzuServer, os_Getwd. unfold bind at 1. unfold query.
  destruct (fault env SysGetwd); [by eauto|].
  unfold bind at 1.
  destruct (reconcile env (cwd env) w) as [[[]|e] w1] eqn:Hrec.
  - exfalso.
    apply reconcile_inv in Hrec
      as [(? & ? & ? & [=])|(acc & w2 & _ & _ & Hloop & _)].
    destruct (walk_snoc_parent _ _ _ _ Hdir) as [m0 Hm0].
    rewrite (userFiles_names _ _ _ _ Hm0) in *.
    destruct (copyLoop_dir env (cwd env) (names m0) [] w n m) as (e & w3 & Hfail);
      [done| |done|congruence].
    apply elem_of_names. rewrite walk_app, Hm0 in Hdir. simpl in Hdir.
    destruct (m0 !! n); [by eexists|done].
  - exists e, w1. split_and!; [done| |].
    + intros ->.
      apply reconcile_inv in Hrec
        as [(? & ? & ? & [=])|(acc & w2 & _ & _ & Hloop & _)].
      destruct (walk_snoc_parent _ _ _ _ Hdir) as [m0 Hm0].
      rewrite (userFiles_names _ _ _ _ Hm0) in *.
      destruct (copyLoop_dir env (cwd env) (names m0) [] w n m) as (e & w3 & Hfail);
        [done| |done|congruence].
      apply elem_of_names. rewrite walk_app, Hm0 in Hdir. simpl in Hdir.
      destruct (m0 !! n); [by eexists|done].
    + by eapply starts_nothing_execs; [apply starts_nothing_reconcile|].
Qed.

(** X10. [buildPonzuServer] starts the build only after a copy pass that
    ended well, and starts nothing else: either it returns an error and has
    started no subprocess, or the copy pass has ended well and the one
    subprocess started is go build on main.go and options.go of cmd/ponzu;
    it returns no error only when this build has ended with status 0, and
    the tree is then the one the build left. *)
Theorem build_follows_reconcile env args w r w' :
  buildPonzuServer env args w = (r, w') →
  (∃ e, r = Err e ∧ execs (log w') = execs (log w)) ∨
  (∃ w1, reconcile env (cwd env) w = (Ok tt, w1) ∧
     execs (log w') = execs (log w) ++ [buildCommand (cwd env)] ∧
     (r = Ok tt →
      run env (buildCommand (cwd env)) (fs w1) = Exit None (fs w'))).
Proof.
  unfold buildPonzuServer, os_Getwd. unfold bind at 1. unfold query.
  destruct (fault env SysGetwd); [intros [= <- <-]; left; by eauto|].
  unfold bind at 1.
  destruct (reconcile env (cwd env) w) as [[[]|e] w1] eqn:Hrec.
  - apply (starts_nothing_execs _ _ _ _ (starts_nothing_reconcile _ _)) in Hrec as Hexecs.
    rewrite compile_result. cbv zeta. intros Hrun. right. exists w1.
    split; [done|].
    destruct (run env (buildCommand (cwd env)) (fs w1)) as [e|[e|] t];
      injection Hrun as <- <-; cbn [fs log]; by rewrite execs_app, Hexecs.
  - intros [= <- <-]. left. exists e. split; [done|].
    by eapply starts_nothing_execs; [apply starts_nothing_reconcile|].
Qed.

(** ** The protected names *)

Lemma checkConflicts_protected n acc :
  checkConflicts n acc = acc ++ (if protected n then [n] else []).
Proof.
  unfold checkConflicts, protected, conflictFiles. cbn [fold_left existsb].
  destruct (String.eqb_spec n "item.go") as [->|_]; [done|].
  destruct (String.eqb_spec n "types.go") as [->|_]; [done|].
  cbn. by rewrite app_nil_r.
Qed.

Lemma conflicts_filter ns acc :
  conflicts ns acc = acc ++ List.filter protected ns.
Proof.
  revert acc. induction ns as [|n ns IH]; intros acc; cbn [List.filter].
  - by rewrite app_nil_r.
  - change (conflicts (n :: ns) acc) with (conflicts ns (checkConflicts n acc)).
    rewrite IH, checkConflicts_protected, <- app_assoc.
    by destruct (protected n).
Qed.

Lemma insert_sorted_perm x l : insert_sorted x l ≡ₚ x :: l.
Proof.
  induction l as [|y l IH]; simpl; [done|].
  destruct (String.leb x y); [done|]. by rewrite IH, Permutation_swap.
Qed.

Lemma NoDup_names (m : gmap string node) : NoDup (names m).
Proof.
  unfold names.
  assert (Hperm : ∀ l, foldr insert_sorted [] l ≡ₚ l).
  { induction l as [|x l IH]; simpl; [done|].
    by rewrite insert_sorted_perm, IH. }
  rewrite Hperm. apply NoDup_fst_map_to_list.
Qed.

Lemma elem_of_filter_protected n l :
  n ∈ List.filter protected l ↔ n ∈ l ∧ protected n = true.
Proof. rewrite !list_elem_of_In. apply filter_In. Qed.

Lemma protected_names n :
  protected n = true ↔ n = "item.go" ∨ n = "types.go".
Proof.
  unfold protected, conflictFiles. cbn [existsb].
  rewrite !orb_true_iff, !String.eqb_eq. intuition discriminate.
Qed.

Lemma NoDup_filter_protected l : NoDup l → NoDup (List.filter protected l).
Proof.
  induction 1 as [|x l Hx Hl IH]; cbn [List.filter]; [constructor|].
  destruct (protected x); [|done]. constructor; [|done].
  by intros [? _]%elem_of_filter_protected.
Qed.

Lemma filter_protected_pair l :
  NoDup l →
  (1 < length (List.filter protected l))%nat ↔ "item.go" ∈ l ∧ "types.go" ∈ l.
Proof.
  intros Hl. split.
  - pose proof (NoDup_filter_protected _ Hl) as Hf.
    destruct (List.filter protected l) as [|x [|y f]] eqn:Heq; simpl; [lia..|].
    intros _.
    assert (Hx : x ∈ List.filter protected l) by (rewrite Heq; by left).
    assert (Hy : y ∈ List.filter protected l)
      by (rewrite Heq; right; by left).
    apply elem_of_filter_protected in Hx as [Hx Hpx].
    apply elem_of_filter_protected in Hy as [Hy Hpy].
    apply NoDup_cons in Hf as [Hxy _].
    assert (x ≠ y) by (intros ->; apply Hxy; by left).
    apply protected_names in Hpx as [->| ->];
      apply protected_names in Hpy as [->| ->]; done.
  - intros [Hi Ht].
    assert (Hsub : ["item.go"; "types.go"] ⊆+ List.filter protected l).
    { apply NoDup_submseteq.
      - apply NoDup_cons. split; [by intros ?%list_elem_of_singleton|].
        apply NoDup_singleton.
      - intros x [->|[->|[]%elem_of_nil]%elem_of_cons]%elem_of_cons;
          by apply elem_of_filter_protected. }
    apply submseteq_length in Hsub. simpl in Hsub. lia.
Qed.

Lemma NoDup_userFiles env pwd t : NoDup (userFiles env pwd t).
Proof.
  unfold userFiles. destruct (at_path env _ t) as [|[|m]];
    [apply NoDup_nil_2..|apply NoDup_names].
Qed.

Section Gathered.

Context (env : Env) (pwd : string).

Lemma copyRound_log n w u w' :
  copyRound env pwd n w = (Ok u, w') → log w' = log w.
Proof.
  unfold copyRound, os_Create, os_Open, io_Copy. intros H.
  inv_bind H as w1 Hc. inv_bind Hc as w1' Hc'. injection Hc as _ <-.
  apply update_Ok in Hc' as [_ Hl1].
  inv_bind H as w2 Ho. apply query_Ok in Ho as [_ ->].
  inv_bind H as w3 Hr. apply query_Ok in Hr as [_ ->].
  apply update_Ok in H as [_ Hl2]. congruence.
Qed.

Lemma copyLoop_gathered ns acc w acc' w' :
  copyLoop env (userContentDir pwd) (vendoredContentDir pwd) ns acc w
  = (Ok acc', w') →
  acc' = acc ++ List.filter protected ns ∧ log w' = log w.
Proof.
  revert acc w. induction ns as [|n ns IH]; intros acc w.
  - intros [= <- <-]. by rewrite app_nil_r.
  - rewrite copyLoop_cons.
    destruct (copyRound env pwd n w) as [[u|e] w1] eqn:Hround; [|done].
    apply copyRound_log in Hround as <-.
    intros [-> ->]%IH. split; [|done].
    rewrite checkConflicts_protected, <- app_assoc. cbn [List.filter].
    by destruct (protected n).
Qed.

(** X11. The copy pass gathers the protected names among the user files,
    each once and in the order of the directory.  When [reconcile] returns
    the conflict error, item.go and types.go are both in the user content
    directory, and the report lists these names between its lines; and when
    both are there, [reconcile] does not end well. *)
Theorem conflict_reported_for_both_names w r w' :
  reconcile env pwd w = (r, w') →
  (r = Err conflictError →
   "item.go" ∈ userFiles env pwd (fs w) ∧
   "types.go" ∈ userFiles env pwd (fs w) ∧
   log w'
   = log w ++ conflictReport (List.filter protected (userFiles env pwd (fs w)))) ∧
  ("item.go" ∈ userFiles env pwd (fs w) →
   "types.go" ∈ userFiles env pwd (fs w) → r ≠ Ok tt).
Proof.
  intros [(op & p & no & ->)|(acc & w1 & _ & _ & Hloop & Hres)]%reconcile_inv;
    [done|].
  apply copyLoop_gathered in Hloop as [-> Hlog]. cbn [app] in Hres.
  pose proof (filter_protected_pair _ (NoDup_userFiles env pwd (fs w))) as Hpair.
  destruct (Nat.ltb_spec 1 (length (List.filter protected
              (userFiles env pwd (fs w))))) as [Hlt|Hge];
    destruct Hres as [-> ->].
  - split; [|done]. intros _. apply Hpair in Hlt as [??].
    cbn [log]. by rewrite Hlog.
  - split; [done|]. intros Hi Ht _.
    assert (1 < length (List.filter protected (userFiles env pwd (fs w))))%nat
      by by apply Hpair.
    lia.
Qed.

End Gathered.

(** ** A project just created *)

Lemma names_empty : names (∅ : gmap string node) = [].
Proof. unfold names. by rewrite map_to_list_empty. Qed.

Lemma reconcile_empty env pwd w :
  fault env (SysReadDir (userContentDir pwd)) = None →
  walk (entry env pwd ++ ["content"]) (fs w) = inr (Dir ∅) →
  reconcile env pwd w = (Ok tt, w).
Proof.
  intros Hf Hc. eapply reconcile_run; [done|exact Hc| |].
  - by rewrite names_empty.
  - simpl. lia.
Qed.

(** X12. A project just created builds without a conflict: after
    [createProjInDir] has ended well, with [dev] or without, the user
    content directory is empty, so the copy pass in the project directory
    copies nothing, reports nothing and ends well on the same tree, and
    [buildPonzuServer] run there goes on to the build. *)
Theorem new_project_reconciles env path w w' :
  createProjInDir env path w = (Ok tt, w') →
  fault env (SysReadDir (userContentDir path)) = None →
  reconcile env path w' = (Ok tt, w') ∧
  (cwd env = path → fault env SysGetwd = None →
   ∀ args, buildPonzuServer env args w' = compile env path w').
Proof.
  intros Hrun Hf.
  assert (Hrec : reconcile env path w' = (Ok tt, w')).
  { apply reconcile_empty; [done|].
    destruct (dev env) eqn:Hdev.
    - apply createProjInDir_dev_finished in Hrun
        as (? & ? & w2 & _ & _ & Hv & ->); [|done].
      by apply vendor_layout in Hv as (_ & _ & _ & _ & ?).
    - apply createProjInDir_finished in Hrun
        as (? & ? & ? & ? & ? & _ & _ & _ & Hfin); [|done].
      by apply finishProject_layout in Hfin as (? & _). }
  split; [done|]. intros <- Hwd args.
  by rewrite (buildPonzuServer_run _ _ _ Hwd), Hrec.
Qed.

(** ** A path through a regular file *)



(** ** The properties on the scenarios *)

Lemma vendor_keeps_the_rest_witness :
  let w' := (vendorCorePackages building "/proj" cloned).2 in
  vendorCorePackages building "/proj" cloned = (Ok tt, w') ∧
  walk (entry building "/proj" ++ [".git"; "HEAD"]) (fs w')
  = walk (entry building "/proj" ++ [".git"; "HEAD"]) (fs cloned) ∧
  walk (entry building "/proj" ++ ["cmd"; "ponzu"; "main.go"]) (fs w')
  = walk (entry building "/proj" ++ ["cmd"; "ponzu"; "main.go"]) (fs cloned).
Proof.
  cbv zeta.
  assert (Hrun : vendorCorePackages building "/proj" cloned
                 = (Ok tt, (vendorCorePackages building "/proj" cloned).2))
    by (vm_compute; reflexivity).
  pose proof (vendor_keeps_the_rest building "/proj" cloned _ _ Hrun)
    as [Hroot Hcmd].
  split_and!; [exact Hrun| |].
  - apply Hroot. by intros [?|[?|[?| ?]]%elem_of_corePackages]%elem_of_cons.
  - by apply Hcmd.
Defined.

Lemma vendor_failure_loses_nothing_witness :
  let result := vendorCorePackages building "/proj" incomplete in
  let e :=
    LinkError "rename" "/proj/management"
      "/proj/cmd/ponzu/vendor/github.com/bosssauce/ponzu/management" ENOENT in
  result = (Err e, result.2) ∧
  log result.2 = log incomplete ∧
  at_path building "/proj/cmd/ponzu/vendor/github.com/bosssauce/ponzu/content"
    (fs result.2)
  = at_path building "/proj/content" (fs incomplete) ∧
  at_path building "/proj/content" (fs result.2) = inl ENOENT ∧
  at_path building "/proj/system" (fs result.2)
  = at_path building "/proj/system" (fs incomplete).
Proof.
  cbv zeta.
  assert (Hrun : vendorCorePackages building "/proj" incomplete
                 = (Err (LinkError "rename" "/proj/management"
                      "/proj/cmd/ponzu/vendor/github.com/bosssauce/ponzu/management"
                      ENOENT),
                    (vendorCorePackages building "/proj" incomplete).2))
    by (vm_compute; reflexivity).
  pose proof (vendor_failure_loses_nothing building "/proj" incomplete _ _ Hrun)
    as [Hlog _].
  split_and!; [exact Hrun|exact Hlog|vm_compute; reflexivity..].
Defined.

Lemma created_project_layout_witness :
  let result := createProjInDir network_only "/go/src/my" empty_gopath in
  dev network_only = false ∧
  result = (Ok tt, result.2) ∧
  at_path network_only (Filepath.Join ["/go/src/my"; "content"]) (fs result.2)
  = inr (Dir ∅) ∧
  at_path network_only (gitDir "/go/src/my") (fs result.2) = inl ENOENT.
Proof.
  cbv zeta.
  assert (Hrun : createProjInDir network_only "/go/src/my" empty_gopath
                 = (Ok tt,
                    (createProjInDir network_only "/go/src/my" empty_gopath).2))
    by (vm_compute; reflexivity).
  pose proof (created_project_layout network_only "/go/src/my" empty_gopath _
    eq_refl Hrun) as (_ & Hcontent & _ & _ & Hgit & _).
  split_and!; [reflexivity|exact Hrun|exact Hcontent|].
  apply Hgit. reflexivity.
Defined.


Lemma dev_project_keeps_git_witness :
  let result := createProjInDir developing "/go/src/my" empty_gopath in
  dev developing = true ∧
  result = (Ok tt, result.2) ∧
  ∃ w1 t,
    os_MkdirAll developing "/go/src/my" empty_gopath = (Ok tt, w1) ∧
    run developing (devClone developing "/go/src/my") (fs w1) = Exit None t ∧
    at_path developing (gitDir "/go/src/my") (fs result.2)
    = at_path developing (gitDir "/go/src/my") t ∧
    at_path developing (Filepath.Join ["/go/src/my"; "content"]) (fs result.2)
    = inr (Dir ∅) ∧
    (∀ d, d ∈ corePackages →
       ∃ x, at_path developing (Filepath.Join ["/go/src/my"; d]) t = inr x ∧
            at_path developing
              (Filepath.Join [vendorPath "/go/src/my"; d]) (fs result.2)
            = inr x) ∧
    log result.2
    = log empty_gopath
      ++ [Exec (devClone developing "/go/src/my"); Print (devNotice developing)].
Proof.
  cbv zeta.
  assert (Hrun : createProjInDir developing "/go/src/my" empty_gopath
                 = (Ok tt,
                    (createProjInDir developing "/go/src/my" empty_gopath).2))
    by (vm_compute; reflexivity).
  split_and!; [reflexivity|exact Hrun|].
  exact (dev_project_keeps_git developing "/go/src/my" empty_gopath _
    eq_refl Hrun).
Defined.

Lemma newProjectInDir_only_clones_witness :
  let result := newProjectInDir (answering "YES") "my" occupied in
  result = (result.1, result.2) ∧
  ∃ started,
    execs (log result.2) = execs (log occupied) ++ started ∧
    cloneAttempts (answering "YES")
      (Filepath.Join [GOPATH (answering "YES"); "src"; "my"]) started.
Proof.
  cbv zeta. split; [apply surjective_pairing|].
  exact (proj1 (newProjectInDir_only_clones (answering "YES") "my" occupied
    _ _ (surjective_pairing _))).
Defined.



Lemma subdirectory_stops_the_build_witness :
  forallb Filepath.plain
    (userFiles building (cwd building) (fs with_subdirectory)) = true ∧
  walk (userContentEntry building (cwd building) ++ ["pages"])
    (fs with_subdirectory)
  = inr (files [("home.go", "package pages")]) ∧
  ∃ e w',
    buildPonzuServer building [] with_subdirectory = (Err e, w') ∧
    e ≠ conflictError ∧
    execs (log w') = execs (log with_subdirectory).
Proof.
  assert (Hplain : forallb Filepath.plain
                     (userFiles building (cwd building) (fs with_subdirectory))
                   = true)
    by (vm_compute; reflexivity).
  assert (Hdir : walk (userContentEntry building (cwd building) ++ ["pages"])
                   (fs with_subdirectory)
                 = inr (files [("home.go", "package pages")]))
    by (vm_compute; reflexivity).
  split_and!; [exact Hplain|exact Hdir|].
  exact (subdirectory_stops_the_build building [] with_subdirectory "pages" _
    Hplain Hdir).
Defined.

Lemma build_follows_reconcile_witness :
  let result := buildPonzuServer building [] no_conflict in
  result = (Ok tt, result.2) ∧
  execs (log result.2) = execs (log no_conflict) ++ [buildCommand (cwd building)].
Proof.
  cbv zeta.
  assert (Hrun : buildPonzuServer building [] no_conflict
                 = (Ok tt, (buildPonzuServer building [] no_conflict).2))
    by (vm_compute; reflexivity).
  split; [exact Hrun|].
  destruct (build_follows_reconcile building [] no_conflict _ _ Hrun)
    as [(e & He & _)|(w1 & _ & Hexecs & _)]; [discriminate He|exact Hexecs].
Defined.

Lemma conflict_reported_for_both_names_witness :
  let result := reconcile building "/proj" two_conflicts in
  result = (Err conflictError, result.2) ∧
  "item.go" ∈ userFiles building "/proj" (fs two_conflicts) ∧
  "types.go" ∈ userFiles building "/proj" (fs two_conflicts) ∧
  log result.2
  = log two_conflicts
    ++ conflictReport
         (List.filter protected (userFiles building "/proj" (fs two_conflicts))).
Proof.
  cbv zeta.
  assert (Hrun : reconcile building "/proj" two_conflicts
                 = (Err conflictError,
                    (reconcile building "/proj" two_conflicts).2))
    by (vm_compute; reflexivity).
  split; [exact Hrun|].
  exact (proj1 (conflict_reported_for_both_names building "/proj"
    two_conflicts _ _ Hrun) eq_refl).
Defined.

Lemma new_project_reconciles_witness :
  let w' := (createProjInDir network_only "/go/src/my" empty_gopath).2 in
  createProjInDir network_only "/go/src/my" empty_gopath = (Ok tt, w') ∧
  fault network_only (SysReadDir (userContentDir "/go/src/my")) = None ∧
  reconcile network_only "/go/src/my" w' = (Ok tt, w').
Proof.
  cbv zeta.
  assert (Hrun : createProjInDir network_only "/go/src/my" empty_gopath
                 = (Ok tt,
                    (createProjInDir network_only "/go/src/my" empty_gopath).2))
    by (vm_compute; reflexivity).
  split_and!; [exact Hrun|reflexivity|].
  exact (proj1 (new_project_reconciles network_only "/go/src/my" empty_gopath
    _ Hrun eq_refl)).
Defined.

